(** * voice-nourish-app: the meal-description normalization pipeline

    A shallow embedding of
    - [supabase/functions/transcribe-and-analyze/index.ts]: the edge function
      that transcribes an audio payload, asks a chat model for a JSON item
      list, parses it and sanitizes it;
    - [computeTotals] of the confirmation modal, which sums the confirmed
      items into meal totals.

    JavaScript values are modelled as the JSON data model ([JS.value]); JS
    numbers are IEEE 754 binary64 and are modelled by Rocq's primitive
    floats; JS objects used as string-keyed dictionaries are [gmap string].
    Platform services (Deno, fetch, the OpenAI SDK, [JSON.parse]) are inputs
    of the model, gathered in the record [Edge.World]. *)

From Stdlib Require Import Floats Ascii String List DecimalString.
From stdpp Require Import base option list gmap strings.

Local Open Scope string_scope.

(** ** JavaScript values *)
Module JS.

(** What [JSON.parse] can produce. *)
#[warnings="-register-all"]
Inductive value : Type :=
| VNull
| VBool (b : bool)
| VNumber (x : float)
| VString (s : string)
| VArray (l : list value)
| VObject (o : gmap string value).

(** A plain JS object: own enumerable string-keyed properties. *)
Abbreviation object := (gmap string value).

(** [typeof e], where an absent property reads as [undefined] ([None]). *)
Definition typeof (v : option value) : string :=
  match v with
  | None => "undefined"
  | Some VNull => "object"
  | Some (VBool _) => "boolean"
  | Some (VNumber _) => "number"
  | Some (VString _) => "string"
  | Some (VArray _) => "object"
  | Some (VObject _) => "object"
  end.

(** Thrown values: an [Error] instance carrying its [message], or anything
    else. *)
Inductive exn : Type :=
| Error (message : string)
| NonError.

(** The completion of an evaluation: a value or a throw. *)
Inductive outcome (A : Type) : Type :=
| Ok (a : A)
| Throw (e : exn).
Arguments Ok {A} a.
Arguments Throw {A} e.

(** The double quote character, for string constants that contain it. *)
Definition dquote : string :=
  String (Ascii false true false false false true false false) "".

(** [s.includes(needle)]. *)
Fixpoint includes (needle s : string) : bool :=
  String.prefix needle s
  || match s with
     | "" => false
     | String _ s' => includes needle s'
     end.

(** Array index [i] as a property key: its decimal numeral. *)
Definition index_key (i : nat) : string :=
  NilZero.string_of_uint (Nat.to_uint i).

(** [Object.entries(v)] for a value [v] other than [null]: the own
    enumerable string-keyed properties. Objects list their fields, arrays
    and strings their indexed elements, numbers and booleans nothing. (The
    fields of an object come in the map's order, not in insertion order:
    their keys are distinct, and the loops below write each key at most
    once, so the order does not show in what they build.) *)
Definition entries (v : value) : list (string * value) :=
  match v with
  | VObject o => map_to_list o
  | VArray l => imap (fun i x => (index_key i, x)) l
  | VString s =>
      imap (fun i c => (index_key i, VString (String c ""))) (list_ascii_of_string s)
  | VNull | VBool _ | VNumber _ => []
  end.

(** [v.k] for a value [v] other than [null] and a key [k] that no built-in
    prototype defines: own field of an object, [undefined] otherwise. *)
Definition get (v : value) (k : string) : option value :=
  match v with
  | VObject o => o !! k
  | _ => None
  end.

End JS.

(** ** Regular expressions

    The fragment of ECMAScript patterns the sources use: characters, ranges,
    concatenation, alternation and bounded repetition, matched against the
    whole string (patterns anchored by [^] and [$]), with the [i] flag. *)
Module RegExp.

Inductive regex : Type :=
| Void
| Eps
| Chr (c : ascii)
| Range (lo hi : ascii)
| Seq (r1 r2 : regex)
| Alt (r1 r2 : regex).

(** ECMAScript [Canonicalize] without the [u] flag, on single-byte
    characters: under [ignoreCase] a character is compared through its
    upper-case form. *)
Definition Canonicalize (ignoreCase : bool) (ch : ascii) : ascii :=
  if ignoreCase then
    let n := nat_of_ascii ch in
    if (97 <=? n)%nat && (n <=? 122)%nat then ascii_of_nat (n - 32) else ch
  else ch.

Definition chr_test (ic : bool) (a ch : ascii) : bool :=
  bool_decide (Canonicalize ic a = Canonicalize ic ch).

(** The characters of the class [lo-hi]. *)
Definition range_chars (lo hi : ascii) : list ascii :=
  List.map ascii_of_nat (seq (nat_of_ascii lo) (S (nat_of_ascii hi) - nat_of_ascii lo)).

(** A class matches [ch] when one of its members canonicalizes like [ch]. *)
Definition range_test (ic : bool) (lo hi ch : ascii) : bool :=
  existsb (fun a => chr_test ic a ch) (range_chars lo hi).

(** A literal word. *)
Fixpoint lit (s : string) : regex :=
  match s with
  | "" => Eps
  | String c s' => Seq (Chr c) (lit s')
  end.

(** [r{0,n}] and [r{lo,lo+extra}]. *)
Fixpoint rep_upto (n : nat) (r : regex) : regex :=
  match n with
  | O => Eps
  | S n' => Alt Eps (Seq r (rep_upto n' r))
  end.

Fixpoint rep_range (lo extra : nat) (r : regex) : regex :=
  match lo with
  | O => rep_upto extra r
  | S lo' => Seq r (rep_range lo' extra r)
  end.

(** [r{lo,hi}] *)
Definition Quant (lo hi : nat) (r : regex) : regex := rep_range lo (hi - lo) r.

(** [(r1|r2|...)] *)
Fixpoint alts (rs : list regex) : regex :=
  match rs with
  | [] => Void
  | [r] => r
  | r :: rs' => Alt r (alts rs')
  end.

Fixpoint nullable (r : regex) : bool :=
  match r with
  | Void => false
  | Eps => true
  | Chr _ => false
  | Range _ _ => false
  | Seq r1 r2 => nullable r1 && nullable r2
  | Alt r1 r2 => nullable r1 || nullable r2
  end.

(** The residual of [r] after reading [ch]. *)
Fixpoint deriv (ic : bool) (ch : ascii) (r : regex) : regex :=
  match r with
  | Void => Void
  | Eps => Void
  | Chr a => if chr_test ic a ch then Eps else Void
  | Range lo hi => if range_test ic lo hi ch then Eps else Void
  | Seq r1 r2 =>
      if nullable r1
      then Alt (Seq (deriv ic ch r1) r2) (deriv ic ch r2)
      else Seq (deriv ic ch r1) r2
  | Alt r1 r2 => Alt (deriv ic ch r1) (deriv ic ch r2)
  end.

Fixpoint matches_from (ic : bool) (r : regex) (s : list ascii) : bool :=
  match s with
  | [] => nullable r
  | ch :: s' => matches_from ic (deriv ic ch r) s'
  end.

(** A pattern [/^source$/] with or without the [i] flag. *)
Record t : Type := { source : regex; ignoreCase : bool }.

(** [re.test(s)] *)
Definition test (re : t) (s : string) : bool :=
  matches_from (ignoreCase re) (source re) (list_ascii_of_string s).

(** The words a pattern denotes. *)
Inductive matches (ic : bool) : regex -> list ascii -> Prop :=
| MEps : matches ic Eps []
| MChr a ch : chr_test ic a ch = true -> matches ic (Chr a) [ch]
| MRange lo hi ch : range_test ic lo hi ch = true -> matches ic (Range lo hi) [ch]
| MSeq r1 r2 s1 s2 :
    matches ic r1 s1 -> matches ic r2 s2 -> matches ic (Seq r1 r2) (s1 ++ s2)
| MAltL r1 r2 s : matches ic r1 s -> matches ic (Alt r1 r2) s
| MAltR r1 r2 s : matches ic r2 s -> matches ic (Alt r1 r2) s.

End RegExp.

(** ** The edge function [transcribe-and-analyze/index.ts] *)
Module Edge.
Import JS.

Definition corsHeaders : list (string * string) :=
  [ ("Access-Control-Allow-Origin", "*");
    ("Access-Control-Allow-Headers", "authorization, x-client-info, apikey, content-type") ].

(** Known macro keys for validation/cleanup *)
Definition KNOWN_KEYS : gset string :=
  {[ "qty"; "n"; "cal"; "p"; "c"; "f"; "fib" ]}.

(** [/^[a-z]{1,4}_(mg|mcg|iu|g|mgdL|mmolL)$/i] *)
Definition micronutrient_re : RegExp.t :=
  {| RegExp.source :=
       RegExp.Seq (RegExp.Quant 1 4 (RegExp.Range "a" "z"))
         (RegExp.Seq (RegExp.Chr "_")
            (RegExp.alts
               [ RegExp.lit "mg"; RegExp.lit "mcg"; RegExp.lit "iu";
                 RegExp.lit "g"; RegExp.lit "mgdL"; RegExp.lit "mmolL" ]));
     RegExp.ignoreCase := true |}.

(** *** Platform types *)

Record Blob : Type := { blob_bytes : string; blob_type : string }.

Record File : Type := { file_bytes : string; file_name : string; file_type : string }.

(** An entry of a parsed multipart body: a text value, or a file (a [File]
    is a [Blob]). *)
Inductive FormDataEntryValue : Type :=
| EntryString (s : string)
| EntryFile (b : Blob).

Abbreviation FormData := (list (string * FormDataEntryValue)).

(** [formData.get(name)]: the first value under [name], or [null]. *)
Fixpoint FormData_get (fd : FormData) (name : string) : option FormDataEntryValue :=
  match fd with
  | [] => None
  | (k, v) :: fd' => if bool_decide (k = name) then Some v else FormData_get fd' name
  end.

Record Request : Type := {
  method : string;
  header_content_type : option string;  (* req.headers.get of content-type *)
  formData : outcome FormData;          (* await req.formData() *)
}.

Record Transcription : Type := { text : option string }.

Record Message : Type := { content : option string }.
Record Choice : Type := { message : option Message }.
Record ChatCompletion : Type := { choices : option (list Choice) }.

Record TranscriptionRequest : Type := {
  transcription_file : File;
  transcription_model : string;
}.

Record ChatRequest : Type := {
  chat_model : string;
  chat_response_format : string;
  chat_messages : list (string * string);  (* role, content *)
  chat_temperature : float;
}.

(** What the handler reads from its surroundings. *)
Record World : Type := {
  env_OPENAI_API_KEY : option string;   (* Deno.env.get *)
  transcriptions_create : TranscriptionRequest -> outcome Transcription;
  chat_completions_create : ChatRequest -> outcome ChatCompletion;
  JSON_parse : string -> option value;  (* None: JSON.parse throws *)
}.

(** The upstream calls a run performs, in order. *)
Inductive Call : Type :=
| CallTranscription (rq : TranscriptionRequest) (r : outcome Transcription)
| CallChat (rq : ChatRequest) (r : outcome ChatCompletion).

(** A response body: [null], or the serialisation of a value. *)
Inductive Body : Type :=
| NoBody
| JSON_stringify (v : value).

Record Response : Type := {
  status : nat;
  headers : list (string * string);
  body : Body;
}.

(** [new Response(body, { status, headers })]; the status defaults to 200. *)
Definition json_response (st : nat) (v : value) : Response :=
  {| status := st;
     headers := (corsHeaders ++ [("Content-Type", "application/json")])%list;
     body := JSON_stringify v |}.

(** *** Computations that log upstream calls and may throw *)

Definition M (A : Type) : Type := list Call * outcome A.

#[export] Instance M_ret : MRet M := fun A a => ([], Ok a).

#[export] Instance M_bind : MBind M := fun A B f m =>
  match m with
  | (log, Ok a) => let '(log', r) := f a in ((log ++ log')%list, r)
  | (log, Throw e) => (log, Throw e)
  end.

Definition throw {A} (e : exn) : M A := ([], Throw e).

Definition lift {A} (r : outcome A) : M A := ([], r).

Definition call_transcription (w : World) (rq : TranscriptionRequest) : M Transcription :=
  let r := transcriptions_create w rq in ([CallTranscription rq r], r).

Definition call_chat (w : World) (rq : ChatRequest) : M ChatCompletion :=
  let r := chat_completions_create w rq in ([CallChat rq r], r).

(** [s || d] on an optional string: [undefined], [null] and the empty
    string are falsy. *)
Definition or_else (s : option string) (d : string) : string :=
  match s with
  | Some s' => if bool_decide (s' = "") then d else s'
  | None => d
  end.

(** The message of the [TypeError] of reading property [k] of [null]. *)
Definition null_read (k : string) : string :=
  "Cannot read properties of null (reading '" ++ k ++ "')".

(** *** Validate and clean *)

(** [if (typeof item.k === ty) cleaned.k = item.k;] *)
Definition copy_typed (ty k : string) (item : value) (cleaned : object) : object :=
  match get item k with
  | Some v => if bool_decide (typeof (Some v) = ty) then <[k := v]> cleaned else cleaned
  | None => cleaned
  end.

(** The body of the loop over [Object.entries(item)]. *)
Definition keep_micronutrient (cleaned : object) (kv : string * value) : object :=
  let '(k, v) := kv in
  if negb (bool_decide (k ∈ KNOWN_KEYS))
     && bool_decide (typeof (Some v) = "number")
     && RegExp.test micronutrient_re k
  then <[k := v]> cleaned
  else cleaned.

(** Copy known keys with correct types if possible *)
Definition typed_copies (item : value) : object :=
  let cleaned : object := ∅ in
  let cleaned := copy_typed "string" "qty" item cleaned in
  let cleaned := copy_typed "string" "n" item cleaned in
  let cleaned := copy_typed "number" "cal" item cleaned in
  let cleaned := copy_typed "number" "p" item cleaned in
  let cleaned := copy_typed "number" "c" item cleaned in
  let cleaned := copy_typed "number" "f" item cleaned in
  let cleaned := copy_typed "number" "fib" item cleaned in
  cleaned.

(** The callback of [parsed.items.map]: the typed copies, then the
    micronutrients following the [abbr]_[unit] pattern. Reading [item.qty]
    throws when [item] is [null]. *)
Definition clean_item (item : value) : outcome object :=
  match item with
  | VNull => Throw (Error (null_read "qty"))
  | _ => Ok (foldl keep_micronutrient (typed_copies item) (entries item))
  end.

(** [items.map(f)] for a callback that may throw: left to right, the first
    throw ends the traversal. *)
Fixpoint map_outcome {A B} (f : A -> outcome B) (l : list A) : outcome (list B) :=
  match l with
  | [] => Ok []
  | x :: l' =>
      match f x with
      | Ok y =>
          match map_outcome f l' with
          | Ok ys => Ok (y :: ys)
          | Throw e => Throw e
          end
      | Throw e => Throw e
      end
  end.

(** The canonical empty result [{ items: [] }]. *)
Definition empty_result : value := VObject {[ "items" := VArray [] ]}.

(** The items of [result]: [Array.isArray(parsed.items) ? parsed.items.map(..) : []].
    Reading [parsed.items] throws when [parsed] is [null]. *)
Definition result_items (parsed : value) : outcome (list object) :=
  match parsed with
  | VNull => Throw (Error (null_read "items"))
  | _ =>
      match get parsed "items" with
      | Some (VArray items) => map_outcome clean_item items
      | _ => Ok []
      end
  end.

(** [const result = { items: ... }] *)
Definition result (parsed : value) : outcome value :=
  match result_items parsed with
  | Ok items => Ok (VObject {[ "items" := VArray (VObject <$> items) ]})
  | Throw e => Throw e
  end.

(** *** The request handler *)

Definition systemPrompt : string :=
  "You are Sir Dinewell's nutrition valet. Format user-described meals into a token-optimized JSON strictly matching this schema and rules:

Return ONLY valid JSON (no explanations) with this root shape:
{
  " ++ dquote ++ "items" ++ dquote ++ ": [
    {
      " ++ dquote ++ "qty" ++ dquote ++ ": string,        // descriptive quantity like " ++ dquote ++ "2 slices" ++ dquote ++ " or " ++ dquote ++ "100g" ++ dquote ++ "
      " ++ dquote ++ "n" ++ dquote ++ ": string,          // descriptive name of the food item
      " ++ dquote ++ "cal" ++ dquote ++ ": number,        // total calories for the item
      " ++ dquote ++ "p" ++ dquote ++ ": number,          // grams of protein
      " ++ dquote ++ "c" ++ dquote ++ ": number,          // grams of carbohydrates
      " ++ dquote ++ "f" ++ dquote ++ ": number,          // grams of fat
      " ++ dquote ++ "fib" ++ dquote ++ ": number?        // grams of fiber (optional)
      // Micronutrients: add as top-level keys on the item, using [shorthand]_[unit]. Example: k_mg (potassium in mg), fe_mg (iron in mg).
    }
  ]
}

Rules:
- Root must contain only one key: items (array).
- Do not include meal-level totals; only per-item values.
- Include micronutrients when you can infer them; use lowercase shorthand and unit suffix like _mg, _mcg, _iu as appropriate.
- If information is missing, be conservative and omit fields instead of guessing wildly.
- If nothing can be parsed, return {" ++ dquote ++ "items" ++ dquote ++ ": []}.
".

Definition userPrompt (transcribedText : string) : string :=
  "Transcribed meal description:

" ++ transcribedText.

(** [completion.choices?.[0]?.message?.content || <the empty result's text>] *)
Definition raw_of (completion : ChatCompletion) : string :=
  let choice0 : option Choice :=
    match choices completion with Some l => l !! 0%nat | None => None end in
  let msg : option Message :=
    match choice0 with Some ch => message ch | None => None end in
  let cnt : option string :=
    match msg with Some m => content m | None => None end in
  or_else cnt ("{" ++ (dquote ++ "items" ++ dquote) ++ ": []}").

(** [JSON.parse(raw)] inside its own [try]: the fallback is the empty
    structure. *)
Definition parse_or_empty (w : World) (raw : string) : value :=
  match JSON_parse w raw with
  | Some v => v
  | None => empty_result
  end.

(** [new File([file], <name>, { type })] *)
Definition audioFile (file : Blob) : File :=
  {| file_bytes := blob_bytes file; file_name := "audio.webm"; file_type := "audio/webm" |}.

(** Step 1: Transcription with Whisper *)
Definition transcription_request (file : Blob) : TranscriptionRequest :=
  {| transcription_file := audioFile file; transcription_model := "whisper-1" |}.

(** Step 2: Analysis and structuring with Chat Completions *)
#[warnings="-inexact-float"]
Definition chat_request (transcribedText : string) : ChatRequest :=
  {| chat_model := "gpt-4o";
     chat_response_format := "json_object";
     chat_messages := [ ("system", systemPrompt); ("user", userPrompt transcribedText) ];
     chat_temperature := 0.2%float |}.

(** The body of the outer [try] block. *)
Definition try_block (w : World) (req : Request) : M Response :=
  _ ← match env_OPENAI_API_KEY w with
      | Some k => if bool_decide (k = "")
                  then throw (Error "OPENAI_API_KEY is not set") else mret k
      | None => throw (Error "OPENAI_API_KEY is not set")
      end;
  let contentType := or_else (header_content_type req) "" in
  if negb (includes "multipart/form-data" contentType) then
    mret (json_response 400
            (VObject {[ "error" := VString "Expected multipart/form-data with a 'file' field" ]}))
  else
    fd ← lift (formData req);
    match FormData_get fd "file" with
    | Some (EntryFile file) =>
        transcription ← call_transcription w (transcription_request file);
        let transcribedText := or_else (text transcription) "" in
        completion ← call_chat w (chat_request transcribedText);
        let raw := raw_of completion in
        let parsed := parse_or_empty w raw in
        res ← lift (result parsed);
        mret (json_response 200 res)
    | _ =>
        mret (json_response 400
                (VObject {[ "error" := VString "No audio file provided under 'file'" ]}))
    end.

(** [error instanceof Error ? error.message : <fallback>] *)
Definition message_of (e : exn) : string :=
  match e with
  | Error m => m
  | NonError => "Unknown error"
  end.

(** The function given to [serve]: the response, and the upstream calls made
    on the way. ([console.error] is not modelled.) *)
Definition handler (w : World) (req : Request) : Response * list Call :=
  if bool_decide (method req = "OPTIONS") then
    ({| status := 200; headers := corsHeaders; body := NoBody |}, [])
  else
    match try_block w req with
    | (log, Ok resp) => (resp, log)
    | (log, Throw e) =>
        (json_response 500 (VObject {[ "error" := VString (message_of e) ]}), log)
    end.

End Edge.

(** ** The confirmation modal: [computeTotals] *)
Module Confirmation.

(** A field of a [TokenItem]: [string | number] (an [undefined] field reads
    like an absent one). *)
Inductive field : Type :=
| FString (s : string)
| FNumber (x : float).

(** [TokenItem]: [qty], [n], the optional macros and the micronutrients, all
    under the index signature [[key: string]: string | number | undefined]. *)
Abbreviation TokenItem := (gmap string field).

Definition KNOWN_KEYS : gset string :=
  {[ "qty"; "n"; "cal"; "p"; "c"; "f"; "fib" ]}.

(** JS truthiness of a number: [0], [-0] and [NaN] are falsy. *)
Definition truthy_number (x : float) : bool :=
  negb (PrimFloat.is_zero x || PrimFloat.is_nan x).

Definition truthy (v : field) : bool :=
  match v with
  | FString s => negb (bool_decide (s = ""))
  | FNumber x => truthy_number x
  end.

Record Totals : Type := {
  total_calories : float;
  protein : float;
  carbs : float;
  fat : float;
  fiber : float;
  micronutrients : gmap string float;
}.

Section ComputeTotals.

(** The built-in conversion of a string to a number. *)
Variable StringToNumber : string -> float.

(** [Number(v)] *)
Definition Number (v : field) : float :=
  match v with
  | FNumber x => x
  | FString s => StringToNumber s
  end.

(** [Number(it.k || 0)] *)
Definition macro (it : TokenItem) (k : string) : float :=
  match it !! k with
  | Some v => if truthy v then Number v else Number (FNumber 0)
  | None => Number (FNumber 0)
  end.

(** The loop over [Object.entries(it)]:
    [acc.micronutrients[k] = (acc.micronutrients[k] || 0) + v].
    (Keys are taken not to name a member of [Object.prototype].) *)
Definition add_micronutrient (m : gmap string float) (kv : string * field) : gmap string float :=
  let '(k, v) := kv in
  match v with
  | FNumber x =>
      if negb (bool_decide (k ∈ KNOWN_KEYS)) then
        let old := match m !! k with
                   | Some y => if truthy_number y then y else 0%float
                   | None => 0%float
                   end in
        <[k := (old + x)%float]> m
      else m
  | FString _ => m
  end.

(** The reducer of [computeTotals]. *)
Definition add_item (acc : Totals) (it : TokenItem) : Totals :=
  {| total_calories := (total_calories acc + macro it "cal")%float;
     protein := (protein acc + macro it "p")%float;
     carbs := (carbs acc + macro it "c")%float;
     fat := (fat acc + macro it "f")%float;
     fiber := (fiber acc + macro it "fib")%float;
     micronutrients := foldl add_micronutrient (micronutrients acc) (map_to_list it) |}.

Definition no_totals : Totals :=
  {| total_calories := 0; protein := 0; carbs := 0; fat := 0; fiber := 0;
     micronutrients := ∅ |}.

Definition computeTotals (list : list TokenItem) : Totals :=
  foldl add_item no_totals list.

End ComputeTotals.

End Confirmation.

(** ** Vocabulary of the specification *)
Module Spec.
Import JS.

Definition is_string (v : value) : bool :=
  match v with VString _ => true | _ => false end.

Definition is_number (v : value) : bool :=
  match v with VNumber _ => true | _ => false end.

(** The declared type of the seven fixed fields: [qty] and [n] are text, the
    macros are numeric. *)
Definition declared_type (k : string) (v : value) : bool :=
  if bool_decide (k ∈ ({[ "qty"; "n" ]} : gset string)) then is_string v
  else if bool_decide (k ∈ ({[ "cal"; "p"; "c"; "f"; "fib" ]} : gset string)) then is_number v
  else false.

(** A field allowed in a sanitized item. *)
Definition field_ok (k : string) (v : value) : Prop :=
  (k ∈ Edge.KNOWN_KEYS ∧ declared_type k v = true)
  ∨ (RegExp.test Edge.micronutrient_re k = true ∧ is_number v = true).

Definition is_lower (ch : ascii) : bool :=
  (97 <=? nat_of_ascii ch)%nat && (nat_of_ascii ch <=? 122)%nat.

Definition is_upper (ch : ascii) : bool :=
  (65 <=? nat_of_ascii ch)%nat && (nat_of_ascii ch <=? 90)%nat.

Definition is_letter (ch : ascii) : bool := is_lower ch || is_upper ch.

(** A word with its ASCII letters in upper case. *)
Definition upper (s : string) : list ascii :=
  List.map (RegExp.Canonicalize true) (list_ascii_of_string s).

(** The unit tokens. *)
Definition UNITS : list string := [ "mg"; "mcg"; "iu"; "g"; "mgdL"; "mmolL" ].

(** A micronutrient key as the data model words it: a lowercase abbreviation
    of 1 to 4 letters, an underscore, a unit token. *)
Definition lowercase_micronutrient_key (k : string) : Prop :=
  ∃ abbr unit : string,
    k = abbr ++ "_" ++ unit
    ∧ (1 <= String.length abbr <= 4)%nat
    ∧ Forall (fun ch => is_lower ch = true) (list_ascii_of_string abbr)
    ∧ unit ∈ UNITS.

(** A micronutrient key as the pattern accepts it: letters of either case,
    and a unit token compared without regard to case. *)
Definition anycase_micronutrient_key (k : string) : Prop :=
  ∃ abbr unit : string,
    k = abbr ++ "_" ++ unit
    ∧ (1 <= String.length abbr <= 4)%nat
    ∧ Forall (fun ch => is_letter ch = true) (list_ascii_of_string abbr)
    ∧ ∃ u, u ∈ UNITS ∧ upper unit = upper u.

End Spec.

(** ** Vocabulary of the service's responses *)
Module Http.
Import JS Edge.

Definition success (r : Response) : Prop := (200 <= status r < 300)%nat.
Definition client_error (r : Response) : Prop := (400 <= status r < 500)%nat.
Definition server_error (r : Response) : Prop := (500 <= status r < 600)%nat.

(** The body [{ error: msg }]. *)
Definition error_body (msg : string) : Body :=
  JSON_stringify (VObject {[ "error" := VString msg ]}).

(** The body carries no [items] field. *)
Definition no_items_payload (r : Response) : Prop :=
  ∀ v, body r = JSON_stringify v -> get v "items" = None.

(** The service credential is set (to a non-empty string). *)
Definition credential_configured (w : World) : Prop :=
  ∃ k, env_OPENAI_API_KEY w = Some k ∧ k ≠ "".

(** The request's content type contains the text multipart/form-data: the
    handler's test, a case-sensitive substring search. *)
Definition declares_multipart (req : Request) : bool :=
  includes "multipart/form-data" (or_else (header_content_type req) "").

(** The faults of a run and the message each surfaces: the credential is
    missing, or an upstream call of the run threw. *)
Inductive fault (w : World) (log : list Call) : string -> Prop :=
| NoCredential :
    ¬ credential_configured w -> fault w log "OPENAI_API_KEY is not set"
| TranscriptionThrew rq e :
    CallTranscription rq (Throw e) ∈ log -> fault w log (message_of e)
| ChatThrew rq e :
    CallChat rq (Throw e) ∈ log -> fault w log (message_of e).

End Http.

(** ** Sample worlds and requests *)
Module Sample.
Import JS Edge.

(** A deployment whose upstream calls answer with a fixed transcript and a
    fixed completion text, and whose JSON parser is [parse]. *)
Definition world (key : option string) (reply : string) (parse : string -> option value) : World :=
  {| env_OPENAI_API_KEY := key;
     transcriptions_create := fun _ => Ok {| text := Some "two eggs" |};
     chat_completions_create := fun _ =>
       Ok {| choices := Some [ {| message := Some {| content := Some reply |} |} ] |};
     JSON_parse := parse |}.

Definition audio : Blob := {| blob_bytes := "RIFF"; blob_type := "audio/webm" |}.

Definition post (content_type : option string) (fd : FormData) : Request :=
  {| method := "POST"; header_content_type := content_type; formData := Ok fd |}.

Definition multipart : option string := Some "multipart/form-data; boundary=xyz".

(** The request the recording modal sends. *)
Definition upload : Request := post multipart [ ("file", EntryFile audio) ].

(** A CORS preflight. *)
Definition preflight : Request :=
  {| method := "OPTIONS"; header_content_type := None; formData := Ok [] |}.

(** A deployment with the credential set, whose model answers [reply]. *)
Definition configured (reply : string) (parse : string -> option value) : World :=
  world (Some "sk-test") reply parse.

(** A deployment without the credential. *)
Definition unconfigured : World := world None "" (fun _ => None).

(** The item of the specification's round-trip example, and its cleaned
    form. *)
Definition toast : object :=
  <[ "qty" := VString "2 slices" ]> (<[ "n" := VString "toast" ]>
  (<[ "cal" := VNumber 160 ]> (<[ "p" := VNumber 8 ]> (<[ "c" := VNumber 30 ]>
  (<[ "f" := VNumber 2 ]> (<[ "k_mg" := VNumber 200 ]>
  (<[ "notes" := VString "great" ]> ∅))))))).

Definition toast_cleaned : object :=
  <[ "qty" := VString "2 slices" ]> (<[ "n" := VString "toast" ]>
  (<[ "cal" := VNumber 160 ]> (<[ "p" := VNumber 8 ]> (<[ "c" := VNumber 30 ]>
  (<[ "f" := VNumber 2 ]> (<[ "k_mg" := VNumber 200 ]> ∅)))))).

Definition toast_parsed : value := VObject {[ "items" := VArray [ VObject toast ] ]}.

Definition toast_result : value := VObject {[ "items" := VArray [ VObject toast_cleaned ] ]}.

(** A model output whose item list holds a [null]. *)
Definition null_item_parsed : value :=
  VObject {[ "items" := VArray [ VObject toast; VNull ] ]}.

End Sample.

(** ** The recording modal: [processAudio] *)
Module Recording.
Import JS.

(** JS truthiness of a JSON value. *)
Definition truthy (v : value) : bool :=
  match v with
  | VNull => false
  | VBool b => b
  | VNumber x => negb (PrimFloat.is_zero x || PrimFloat.is_nan x)
  | VString s => negb (bool_decide (s = ""))
  | VArray _ => true
  | VObject _ => true
  end.

(** [Array.isArray(result.items)], for a [result] that is not [null]. *)
Definition has_items_array (result : value) : bool :=
  match get result "items" with
  | Some (VArray _) => true
  | _ => false
  end.

(** What [fetch] resolves to: the [ok] flag and the two body readers. *)
Record FetchResponse : Type := {
  ok : bool;
  resp_text : outcome string;  (* await resp.text() *)
  resp_json : outcome value;   (* await resp.json() *)
}.

(** What [processAudio] reads from its surroundings: the session's access
    token (absent without a session), and the answer to the upload, given
    the Authorization header sent. *)
Record Platform : Type := {
  getSession : outcome (option string);
  fetch : string -> outcome FetchResponse;
}.

(** What [processAudio] does to the component and its parent. *)
Inductive Event : Type :=
| OnRecordingComplete (result : value)
| SetIsProcessing (b : bool)
| OnClose
| Toast (variant title description : string).

(** The body of the [try] block, up to the validated result. *)
Definition fetch_result (p : Platform) : outcome value :=
  match getSession p with
  | Throw e => Throw e
  | Ok access_token =>
      let authorization :=
        match access_token with
        | Some t => if bool_decide (t = "") then "" else "Bearer " ++ t
        | None => ""
        end in
      match fetch p authorization with
      | Throw e => Throw e
      | Ok resp =>
          if negb (ok resp) then
            match resp_text resp with
            | Throw e => Throw e
            | Ok txt =>
                Throw (Error (if bool_decide (txt = "") then "Edge function error" else txt))
            end
          else
            match resp_json resp with
            | Throw e => Throw e
            | Ok result =>
                if negb (truthy result) || negb (has_items_array result)
                then Throw (Error "Invalid response from transcription service")
                else Ok result
            end
      end
  end.

(** [processAudio]: the events of one upload, in order. ([console.error] is
    not modelled.) *)
Definition processAudio (p : Platform) : list Event :=
  match fetch_result p with
  | Ok result => [ OnRecordingComplete result; SetIsProcessing false; OnClose ]
  | Throw _ =>
      [ Toast "destructive" "Processing Error"
          "Unable to process your recording. Please try again.";
        SetIsProcessing false ]
  end.

(** The [ok] flag of a response: a status from 200 to 299. *)
Definition ok_status (st : nat) : bool := (200 <=? st)%nat && (st <=? 299)%nat.

(** A response of the edge function as the browser hands it to
    [processAudio], given the platform's serialiser and body parser. *)
Definition delivered (stringify : value -> string) (parse : string -> outcome value)
    (r : Edge.Response) : FetchResponse :=
  let text :=
    match Edge.body r with
    | Edge.NoBody => ""
    | Edge.JSON_stringify v => stringify v
    end in
  {| ok := ok_status (Edge.status r); resp_text := Ok text; resp_json := parse text |}.

End Recording.

(** ** The confirmation modal: editing and confirming *)
Module Modal.
Import Confirmation.

(** [{ qty: '1 serving', n: '' }] *)
Definition blank_item : TokenItem :=
  <[ "qty" := FString "1 serving" ]> (<[ "n" := FString "" ]> ∅).


(** [/^(?:[a-z]{1,4})_(?:mg|mcg|iu|g|mgdL|mmolL)$/i] *)
Definition micronutrient_re : RegExp.t :=
  {| RegExp.source :=
       RegExp.Seq (RegExp.Quant 1 4 (RegExp.Range "a" "z"))
         (RegExp.Seq (RegExp.Chr "_")
            (RegExp.alts
               [ RegExp.lit "mg"; RegExp.lit "mcg"; RegExp.lit "iu";
                 RegExp.lit "g"; RegExp.lit "mgdL"; RegExp.lit "mmolL" ]));
     RegExp.ignoreCase := true |}.

(** [micronutrientKeys]: the set built by the [useMemo] callback, over the
    keys of the items whatever their values. ([Array.from(keys)] lists this
    set in insertion order, which the model does not keep.) *)
Definition micronutrientKeys {V} (editItems : list (gmap string V)) : gset string :=
  foldl (fun keys it =>
           foldl (fun (keys : gset string) (k : string) =>
                    if negb (bool_decide (k ∈ KNOWN_KEYS)) && RegExp.test micronutrient_re k
                    then {[ k ]} ∪ keys else keys)
                 keys (map_to_list it).*1)
        ∅ editItems.

(** [updateItem]: a copy of the array with [field] of item [index] set. An
    index past the end grows the copy, leaving holes ([None]) and a last item
    holding only [field]. *)
Definition updateItem (editItems : list TokenItem) (index : nat) (field : string)
    (value : Confirmation.field) : list (option TokenItem) :=
  let updated := Some <$> editItems in
  let item := <[ field := value ]> (default ∅ (editItems !! index)) in
  if (index <? length editItems)%nat then <[ index := Some item ]> updated
  else (updated ++ replicate (index - length editItems) None ++ [ Some item ])%list.


(** [array.filter((x, i) => p(x, i))], from index [i] on. *)
Fixpoint filter_index {A} (p : A -> nat -> bool) (l : list A) (i : nat) : list A :=
  match l with
  | [] => []
  | x :: l' => if p x i then x :: filter_index p l' (S i) else filter_index p l' (S i)
  end.

(** [removeFoodItem]: [editItems.filter((_, i) => i !== index)] *)
Definition removeFoodItem (editItems : list TokenItem) (index : nat) : list TokenItem :=
  filter_index (fun _ i => negb (i =? index)%nat) editItems 0.

(** [!it.k] *)
Definition missing (it : TokenItem) (k : string) : bool :=
  match it !! k with
  | Some v => negb (truthy v)
  | None => true
  end.

(** [editItems.some(it => !it.n || !it.qty)] *)
Definition invalid (editItems : list TokenItem) : bool :=
  existsb (fun it => missing it "n" || missing it "qty") editItems.

(** The row given to [supabase.from('meals').insert]. *)
Record MealInsert : Type := {
  user_id : string;
  meal_name : string;
  description : string;
  row_total_calories : float;
  row_protein : float;
  row_carbs : float;
  row_fat : float;
  row_fiber : float;
  row_micronutrients : gmap string float;
}.

(** What [handleConfirm] does to the component, the store and its parent. *)
Inductive Event : Type :=
| Toast (variant title description : string)
| SetLoading (b : bool)
| Insert (row : MealInsert)
| OnConfirm (items : list TokenItem) (totals : Totals).

Section HandleConfirm.

(** The built-in conversions and [String.prototype.trim]. *)
Variable StringToNumber : string -> float.
Variable NumberToString : float -> string.
Variable trim : string -> string.

(** The store's answer to an insert: the [error] field of the result
    ([None] for [null]), or a throw. *)
Variable insert : MealInsert -> JS.outcome (option string).

(** A field inside a template literal. *)
Definition to_text (v : option field) : string :=
  match v with
  | Some (FString s) => s
  | Some (FNumber x) => NumberToString x
  | None => "undefined"
  end.

(** [editItems.map(i => `${i.qty} ${i.n}`.trim()).filter(Boolean).join(', ')] *)
Definition join_names (editItems : list TokenItem) : string :=
  String.concat ", "
    (List.filter (fun s => negb (bool_decide (s = "")))
       (List.map (fun i => trim (to_text (i !! "qty") ++ " " ++ to_text (i !! "n")))
          editItems)).

(** [handleConfirm]: the events of one click on the confirm button, in
    order, for the signed-in user's id if any. ([console.warn] and
    [console.error] are not modelled.) *)
Definition handleConfirm (user : option string) (editItems : list TokenItem) : list Event :=
  match user with
  | None => []
  | Some id =>
      if invalid editItems then
        [ Toast "destructive" "Missing details"
            "Please fill in quantity and name for each item." ]
      else
        let totals := computeTotals StringToNumber editItems in
        let name := join_names editItems in
        let row :=
          {| user_id := id; meal_name := name; description := name;
             row_total_calories := total_calories totals;
             row_protein := protein totals;
             row_carbs := carbs totals;
             row_fat := fat totals;
             row_fiber := fiber totals;
             row_micronutrients := micronutrients totals |} in
        ([ SetLoading true; Insert row ]
         ++ match insert row with
            | JS.Ok _ => [ OnConfirm editItems totals ]
            | JS.Throw _ =>
                [ Toast "destructive" "Recording Error"
                    "Unable to save your meal. Please try again." ]
            end
         ++ [ SetLoading false ])%list
  end.

End HandleConfirm.

End Modal.

(** ** The meal card *)
Module MealCard.

Definition mgNutrients : list string :=
  [ "vitamin_c"; "vitamin_e"; "calcium"; "iron"; "magnesium" ].

Definition mcgNutrients : list string := [ "folate"; "vitamin_b12"; "vitamin_d" ].

(** [getUnit] *)
Definition getUnit (nutrient : string) : string :=
  if bool_decide (nutrient ∈ mgNutrients) then "mg"
  else if bool_decide (nutrient ∈ mcgNutrients) then "µg"
  else if bool_decide (nutrient = "potassium") then "mg"
  else "".

(** [key.replace(/_/g, ' ')] *)
Fixpoint spaced (key : string) : string :=
  match key with
  | "" => ""
  | String ch key' =>
      String (if bool_decide (ch = "_"%char) then " "%char else ch) (spaced key')
  end.

End MealCard.

(** ** The history page: day summaries *)
Module History.

(** A row of the summary query; the numeric columns are nullable. *)
Record MealRow : Type := {
  logged_date : string;
  meal_total_calories : option float;
  meal_protein : option float;
  meal_carbs : option float;
  meal_fat : option float;
}.

(** [mealCount] is a count of array elements, below 2^32: it is kept as a
    natural number, where the source adds 1 to a double without loss. *)
Record DaySummary : Type := {
  date : string;
  calories : float;
  protein : float;
  carbs : float;
  fat : float;
  mealCount : nat;
}.

(** [Number(x) || 0] on a nullable numeric column. *)
Definition number_or_zero (x : option float) : float :=
  match x with
  | Some y => if Confirmation.truthy_number y then y else 0%float
  | None => 0%float
  end.

(** [summaryMap]: a [Map] from date to summary, in insertion order. *)
Abbreviation SummaryMap := (list (string * DaySummary)).

Fixpoint Map_has (m : SummaryMap) (k : string) : bool :=
  match m with
  | [] => false
  | (k', _) :: m' => bool_decide (k' = k) || Map_has m' k
  end.

Fixpoint Map_get (m : SummaryMap) (k : string) : option DaySummary :=
  match m with
  | [] => None
  | (k', s) :: m' => if bool_decide (k' = k) then Some s else Map_get m' k
  end.

(** [summaryMap.set(k, s)] for a key the map does not hold. *)
Definition Map_set_new (m : SummaryMap) (k : string) (s : DaySummary) : SummaryMap :=
  (m ++ [ (k, s) ])%list.

(** The summary under [k], mutated in place by [f]. *)
Fixpoint Map_update (f : DaySummary -> DaySummary) (m : SummaryMap) (k : string) : SummaryMap :=
  match m with
  | [] => []
  | (k', s) :: m' =>
      if bool_decide (k' = k) then (k', f s) :: m' else (k', s) :: Map_update f m' k
  end.

(** The four [+=] and the count of one meal. *)
Definition add_meal (meal : MealRow) (summary : DaySummary) : DaySummary :=
  {| date := date summary;
     calories := (calories summary + number_or_zero (meal_total_calories meal))%float;
     protein := (protein summary + number_or_zero (meal_protein meal))%float;
     carbs := (carbs summary + number_or_zero (meal_carbs meal))%float;
     fat := (fat summary + number_or_zero (meal_fat meal))%float;
     mealCount := mealCount summary + 1 |}.

(** The callback of [meals?.forEach]. *)
Definition group_meal (summaryMap : SummaryMap) (meal : MealRow) : SummaryMap :=
  let date := logged_date meal in
  let summaryMap :=
    if negb (Map_has summaryMap date) then
      Map_set_new summaryMap date
        {| date := date; calories := 0; protein := 0; carbs := 0; fat := 0; mealCount := 0 |}
    else summaryMap in
  Map_update (add_meal meal) summaryMap date.

(** Group by date and calculate summaries: [Array.from(summaryMap.values())],
    for the rows of the query ([None] for [null]). *)
Definition daySummaries (meals : option (list MealRow)) : list DaySummary :=
  (foldl group_meal [] (default [] meals)).*2.

(** [s.split('T')[0]]: the text before the first [T]. *)
Fixpoint before_T (s : string) : string :=
  match s with
  | "" => ""
  | String ch s' => if bool_decide (ch = "T"%char) then "" else String ch (before_T s')
  end.

Section DateLookup.

(** The platform's [Date] objects and [Date.prototype.toISOString], which
    renders the instant in UTC and throws on an invalid date. *)
Variable Date : Type.
Variable toISOString : Date -> JS.outcome string.

(** [getDateSummary]: the summary whose date is the UTC day of [d], as
    [d.toISOString().split('T')[0]] writes it. *)
Definition getDateSummary (summaries : list DaySummary) (d : Date)
    : JS.outcome (option DaySummary) :=
  match toISOString d with
  | JS.Ok iso =>
      let dateStr := before_T iso in
      JS.Ok (List.find (fun summary => bool_decide (date summary = dateStr)) summaries)
  | JS.Throw e => JS.Throw e
  end.

(** [hasDataForDate]: [!!getDateSummary(date)] *)
Definition hasDataForDate (summaries : list DaySummary) (d : Date) : JS.outcome bool :=
  match getDateSummary summaries d with
  | JS.Ok (Some _) => JS.Ok true
  | JS.Ok None => JS.Ok false
  | JS.Throw e => JS.Throw e
  end.

End DateLookup.

(** The rows of one date. *)
Definition on (d : string) (meals : list MealRow) : list MealRow :=
  filter (fun meal => logged_date meal = d) meals.

(** What the map holds after the rows read so far: one entry per date met,
    each with its date and the number of rows of that date. *)
Definition grouped (meals : list MealRow) (m : SummaryMap) : Prop :=
  NoDup m.*1
  ∧ (∀ k, k ∈ m.*1 <-> ∃ meal, meal ∈ meals ∧ logged_date meal = k)
  ∧ (∀ k s, Map_get m k = Some s ->
       date s = k ∧ mealCount s = length (on k meals)).

End History.

(** ** Built-in objects *)
Module Builtins.

(** The property names every plain object inherits from [Object.prototype]
    (ECMAScript, with the legacy accessors of its annex B). *)
Definition Object_prototype_names : gset string :=
  {[ "constructor"; "hasOwnProperty"; "isPrototypeOf"; "propertyIsEnumerable";
     "toLocaleString"; "toString"; "valueOf"; "__proto__";
     "__defineGetter__"; "__defineSetter__"; "__lookupGetter__"; "__lookupSetter__" ]}.

End Builtins.

(** ** Shapes of upstream answers *)
Module Shapes.
Import JS Edge.

(** The text the handler falls back to when a completion has no content. *)
Definition empty_items_text : string :=
  "{" ++ (dquote ++ "items" ++ dquote) ++ ": []}".

(** A completion with no usable content: no choices, an empty choice list,
    a first choice without message, a message without content, or an empty
    content. *)
Inductive without_content : ChatCompletion -> Prop :=
| NoChoices : without_content {| choices := None |}
| EmptyChoices : without_content {| choices := Some [] |}
| NoMessage rest : without_content {| choices := Some ({| message := None |} :: rest) |}
| NoContent rest :
    without_content {| choices := Some ({| message := Some {| content := None |} |} :: rest) |}
| EmptyContent rest :
    without_content {| choices := Some ({| message := Some {| content := Some "" |} |} :: rest) |}.

End Shapes.

(** * Properties *)

Import JS.

(** ** The pattern matcher agrees with the words a pattern denotes *)
Section RegExpTheory.
Import RegExp.
Variable ic : bool.

Lemma matches_nil_nullable r : matches ic r [] -> nullable r = true.
Proof.
  intros H. remember (@nil ascii) as s eqn:Es.
  induction H; simpl; try discriminate; auto.
  - apply app_eq_nil in Es as [-> ->]. rewrite IHmatches1, IHmatches2; auto.
  - rewrite IHmatches; auto.
  - rewrite IHmatches; auto using orb_true_r.
Qed.

Lemma nullable_matches_nil r : nullable r = true -> matches ic r [].
Proof.
  induction r; simpl; intros H; try discriminate.
  - constructor.
  - apply andb_true_iff in H as [H1 H2].
    change (@nil ascii) with (@nil ascii ++ [])%list. constructor; auto.
  - apply orb_true_iff in H as [H|H]; [apply MAltL|apply MAltR]; auto.
Qed.

Lemma deriv_sound ch r s : matches ic (deriv ic ch r) s -> matches ic r (ch :: s).
Proof.
  revert s. induction r; simpl; intros s H.
  - inversion H.
  - inversion H.
  - destruct (chr_test ic c ch) eqn:E; inversion H; subst. now constructor.
  - destruct (range_test ic lo hi ch) eqn:E; inversion H; subst. now constructor.
  - destruct (nullable r1) eqn:N.
    + inversion H as [| | | | ? ? ? H1 | ? ? ? H1]; subst.
      * inversion H1; subst.
        change (ch :: (s1 ++ s2)%list) with ((ch :: s1) ++ s2)%list. constructor; auto.
      * change (ch :: s) with ([] ++ ch :: s)%list.
        constructor; auto using nullable_matches_nil.
    + inversion H; subst.
      change (ch :: (s1 ++ s2)%list) with ((ch :: s1) ++ s2)%list. constructor; auto.
  - inversion H; subst; [apply MAltL|apply MAltR]; auto.
Qed.

Lemma deriv_complete ch r s : matches ic r (ch :: s) -> matches ic (deriv ic ch r) s.
Proof.
  intros H. remember (ch :: s) as w eqn:Ew. revert s Ew.
  induction H; intros s' Ew; simpl; try discriminate.
  - injection Ew as -> <-. rewrite H. constructor.
  - injection Ew as -> <-. rewrite H. constructor.
  - destruct s1 as [|c1 s1]; simpl in Ew.
    + subst s2. rewrite (matches_nil_nullable _ H). apply MAltR; auto.
    + injection Ew as -> <-.
      destruct (nullable r1); [apply MAltL|]; constructor; auto.
  - apply MAltL; auto.
  - apply MAltR; auto.
Qed.

Lemma matches_from_spec r s : matches_from ic r s = true <-> matches ic r s.
Proof.
  revert r. induction s as [|ch s IH]; intros r; simpl.
  - split; auto using matches_nil_nullable, nullable_matches_nil.
  - rewrite IH. split; auto using deriv_sound, deriv_complete.
Qed.

End RegExpTheory.

(** ** Words of literals, classes and bounded repetitions *)
Section RegExpShapes.
Import RegExp.
Variable ic : bool.

Lemma matches_lit_inv w s :
  matches ic (lit w) s ->
  List.map (Canonicalize ic) (list_ascii_of_string w) = List.map (Canonicalize ic) s.
Proof.
  revert s. induction w as [|a w IH]; simpl; intros s H.
  - inversion H. reflexivity.
  - inversion H as [| | |? ? ? ? H1 H2| |]; subst.
    inversion H1 as [|? ? Ht| | | |]; subst. simpl.
    unfold chr_test in Ht. apply bool_decide_eq_true in Ht. rewrite Ht.
    f_equal. auto.
Qed.

Lemma matches_lit_intro w s :
  List.map (Canonicalize ic) (list_ascii_of_string w) = List.map (Canonicalize ic) s ->
  matches ic (lit w) s.
Proof.
  revert s. induction w as [|a w IH]; simpl; intros s H.
  - destruct s; [constructor|discriminate].
  - destruct s as [|ch s]; [discriminate|]. simpl in H. injection H as Hc Hs.
    change (ch :: s) with ([ch] ++ s)%list. constructor; auto.
    constructor. unfold chr_test. now apply bool_decide_eq_true.
Qed.

Lemma matches_alts_inv rs s :
  matches ic (alts rs) s -> ∃ r, r ∈ rs ∧ matches ic r s.
Proof.
  induction rs as [|r rs IH]; simpl; intros H.
  - inversion H.
  - destruct rs as [|r' rs].
    + exists r. split; [left|assumption].
    + inversion H; subst.
      * exists r. split; [left|assumption].
      * destruct IH as (r0 & Hin & Hm); auto. exists r0. split; [now right|assumption].
Qed.

Lemma matches_alts_intro rs r s :
  r ∈ rs -> matches ic r s -> matches ic (alts rs) s.
Proof.
  induction rs as [|r0 rs IH]; intros Hin Hm.
  - inversion Hin.
  - simpl. destruct rs as [|r' rs].
    + apply list_elem_of_singleton in Hin. now subst.
    + apply elem_of_cons in Hin as [->|Hin]; [apply MAltL|apply MAltR]; auto.
Qed.

Lemma matches_rep_upto_inv n lo hi s :
  matches ic (rep_upto n (Range lo hi)) s ->
  (length s <= n)%nat ∧ Forall (fun ch => range_test ic lo hi ch = true) s.
Proof.
  revert s. induction n as [|n IH]; simpl; intros s H.
  - inversion H. split; [simpl; lia|constructor].
  - inversion H as [| | | |? ? ? H1|? ? ? H1]; subst.
    + inversion H1. split; [simpl; lia|constructor].
    + inversion H1 as [| | |? ? ? ? Ha Hb| |]; subst.
      inversion Ha; subst. destruct (IH _ Hb) as [Hl Hf].
      split; [simpl; lia|constructor; auto].
Qed.

Lemma matches_rep_upto_intro n lo hi s :
  (length s <= n)%nat -> Forall (fun ch => range_test ic lo hi ch = true) s ->
  matches ic (rep_upto n (Range lo hi)) s.
Proof.
  revert s. induction n as [|n IH]; simpl; intros s Hl Hf.
  - destruct s; [constructor|simpl in Hl; lia].
  - destruct s as [|ch s]; [apply MAltL; constructor|].
    apply MAltR. inversion Hf; subst. simpl in Hl.
    change (ch :: s) with ([ch] ++ s)%list. constructor; [now constructor|].
    apply IH; [lia|assumption].
Qed.

Lemma matches_rep_range_inv m extra lo hi s :
  matches ic (rep_range m extra (Range lo hi)) s ->
  (m <= length s <= m + extra)%nat ∧ Forall (fun ch => range_test ic lo hi ch = true) s.
Proof.
  revert s. induction m as [|m IH]; simpl; intros s H.
  - apply matches_rep_upto_inv in H as [Hl Hf]. split; [lia|assumption].
  - inversion H as [| | |? ? ? ? Ha Hb| |]; subst.
    inversion Ha; subst. destruct (IH _ Hb) as [Hl Hf].
    split; [simpl; lia|constructor; auto].
Qed.

Lemma matches_rep_range_intro m extra lo hi s :
  (m <= length s <= m + extra)%nat ->
  Forall (fun ch => range_test ic lo hi ch = true) s ->
  matches ic (rep_range m extra (Range lo hi)) s.
Proof.
  revert s. induction m as [|m IH]; simpl; intros s Hl Hf.
  - apply matches_rep_upto_intro; [lia|assumption].
  - destruct s as [|ch s]; [simpl in Hl; lia|].
    inversion Hf; subst. simpl in Hl.
    change (ch :: s) with ([ch] ++ s)%list. constructor; [now constructor|].
    apply IH; [lia|assumption].
Qed.

End RegExpShapes.

(** ** The micronutrient pattern *)
Section MicronutrientPattern.
Import RegExp.

Lemma list_ascii_of_string_app (s t : string) :
  list_ascii_of_string (s ++ t) = (list_ascii_of_string s ++ list_ascii_of_string t)%list.
Proof. induction s as [|a s IH]; simpl; [reflexivity|now rewrite IH]. Qed.

Lemma length_list_ascii_of_string (s : string) :
  length (list_ascii_of_string s) = String.length s.
Proof. induction s as [|a s IH]; simpl; [reflexivity|now rewrite IH]. Qed.

Lemma range_az_is_letter ch : range_test true "a" "z" ch = Spec.is_letter ch.
Proof. destruct ch as [[] [] [] [] [] [] [] []]; vm_compute; reflexivity. Qed.

Lemma canonical_underscore ch :
  Canonicalize true "_" = Canonicalize true ch -> ch = "_"%char.
Proof.
  destruct ch as [[] [] [] [] [] [] [] []]; vm_compute; intros H;
    first [reflexivity | discriminate H].
Qed.

Lemma micronutrient_source_units :
  source Edge.micronutrient_re
  = Seq (Quant 1 4 (Range "a" "z")) (Seq (Chr "_") (alts (List.map lit Spec.UNITS))).
Proof. reflexivity. Qed.

(** The keys the micronutrient pattern accepts are exactly the keys made of
    1 to 4 ASCII letters of either case, an underscore, and a unit token up
    to case. *)
Lemma micronutrient_re_spec (k : string) :
  test Edge.micronutrient_re k = true <-> Spec.anycase_micronutrient_key k.
Proof.
  unfold test. rewrite matches_from_spec, micronutrient_source_units.
  change (ignoreCase Edge.micronutrient_re) with true.
  split.
  - intros H.
    inversion H as [| | |? ? s1 s2 Ha Hb Hr Hk| |]; subst.
    inversion Hb as [| | |? ? s3 s4 Hu Hc Hr' Hk'| |]; subst.
    inversion Hu as [|? ? Ht| | | |]; subst.
    unfold chr_test in Ht. apply bool_decide_eq_true in Ht.
    apply canonical_underscore in Ht. subst ch.
    change (matches true (rep_range 1 3 (Range "a" "z")) s1) in Ha.
    change (matches true (alts (List.map lit Spec.UNITS)) s4) in Hc.
    apply matches_rep_range_inv in Ha as [Hlen Hall].
    apply matches_alts_inv in Hc as (r & Hin & Hm).
    apply list_elem_of_fmap in Hin as (u & -> & Hu').
    apply matches_lit_inv in Hm.
    exists (string_of_list_ascii s1), (string_of_list_ascii s4).
    repeat split.
    + rewrite <- (string_of_list_ascii_of_string k).
      match goal with E : _ = list_ascii_of_string k |- _ => rewrite <- E end.
      clear. induction s1 as [|a s1 IH]; simpl in *; [reflexivity|rewrite IH; reflexivity].
    + rewrite <- length_list_ascii_of_string, list_ascii_of_string_of_list_ascii. lia.
    + rewrite <- length_list_ascii_of_string, list_ascii_of_string_of_list_ascii.
      simpl in Hlen. lia.
    + rewrite list_ascii_of_string_of_list_ascii.
      eapply Forall_impl; [exact Hall|]. intros ch Hch. simpl in Hch.
      now rewrite <- range_az_is_letter.
    + exists u. split; [assumption|].
      unfold Spec.upper. now rewrite list_ascii_of_string_of_list_ascii.
  - intros (abbr & unit & -> & Hlen & Hall & u & Hu & Heq).
    rewrite !list_ascii_of_string_app. constructor.
    + apply matches_rep_range_intro.
      * rewrite length_list_ascii_of_string. simpl. lia.
      * eapply Forall_impl; [exact Hall|]. intros ch Hch. simpl in Hch.
        now rewrite range_az_is_letter.
    + change (list_ascii_of_string "_") with ["_"%char].
      constructor.
      * constructor. unfold chr_test. now apply bool_decide_eq_true.
      * apply (matches_alts_intro _ _ (lit u)).
        -- apply list_elem_of_fmap. now exists u.
        -- apply matches_lit_intro. symmetry. exact Heq.
Qed.

End MicronutrientPattern.

(** ** Validate and clean: what reaches a cleaned item *)
Section CleanItem.
Import Edge.

Lemma typeof_number v : typeof (Some v) = "number" <-> Spec.is_number v = true.
Proof. destruct v; simpl; split; intros H; try reflexivity; discriminate. Qed.

Lemma typeof_string v : typeof (Some v) = "string" <-> Spec.is_string v = true.
Proof. destruct v; simpl; split; intros H; try reflexivity; discriminate. Qed.

Lemma known_keys_cases k :
  k ∈ KNOWN_KEYS <->
  k = "qty" ∨ k = "n" ∨ k = "cal" ∨ k = "p" ∨ k = "c" ∨ k = "f" ∨ k = "fib".
Proof. unfold KNOWN_KEYS. set_unfold. tauto. Qed.

Lemma copy_typed_lookup_ne ty k item (m : object) k' :
  k ≠ k' -> copy_typed ty k item m !! k' = m !! k'.
Proof.
  intros Hne. unfold copy_typed.
  destruct (get item k) as [v|]; [|reflexivity].
  case_bool_decide; [|reflexivity]. now rewrite lookup_insert_ne.
Qed.

Lemma copy_typed_lookup_eq ty k item (m : object) :
  copy_typed ty k item m !! k =
  match get item k with
  | Some v => if bool_decide (typeof (Some v) = ty) then Some v else m !! k
  | None => m !! k
  end.
Proof.
  unfold copy_typed. destruct (get item k) as [v|]; [|reflexivity].
  case_bool_decide; [|reflexivity]. now rewrite lookup_insert_eq.
Qed.

Lemma keep_micronutrient_step (m : object) k v :
  keep_micronutrient m (k, v)
  = if (negb (bool_decide (k ∈ KNOWN_KEYS))
        && bool_decide (typeof (Some v) = "number")
        && RegExp.test micronutrient_re k)%bool
    then <[k := v]> m else m.
Proof. reflexivity. Qed.

(** The micronutrient loop leaves the seven known keys alone. *)
Lemma keep_micronutrient_known entries (m : object) k :
  k ∈ KNOWN_KEYS -> foldl keep_micronutrient m entries !! k = m !! k.
Proof.
  intros Hk. revert m. induction entries as [|[k' v] entries IH]; intros m.
  - reflexivity.
  - change (foldl keep_micronutrient m ((k', v) :: entries))
      with (foldl keep_micronutrient (keep_micronutrient m (k', v)) entries).
    rewrite IH, keep_micronutrient_step.
    destruct (decide (k' ∈ KNOWN_KEYS)) as [Hin|Hout].
    + rewrite (bool_decide_eq_true_2 _ Hin). reflexivity.
    + match goal with |- (if ?b then _ else _) !! _ = _ => destruct b end; [|reflexivity].
      rewrite lookup_insert_ne; [reflexivity|]. intros ->. contradiction.
Qed.

(** Whatever the loop adds passed its three tests. *)
Lemma keep_micronutrient_added entries (m : object) k v :
  foldl keep_micronutrient m entries !! k = Some v ->
  m !! k = Some v
  ∨ ((k ∉ KNOWN_KEYS) ∧ typeof (Some v) = "number" ∧ RegExp.test micronutrient_re k = true).
Proof.
  revert m. induction entries as [|[k' v'] entries IH]; intros m.
  - now left.
  - change (foldl keep_micronutrient m ((k', v') :: entries))
      with (foldl keep_micronutrient (keep_micronutrient m (k', v')) entries).
    intros H. apply IH in H as [H|H]; [|now right].
    rewrite keep_micronutrient_step in H.
    destruct (negb (bool_decide (k' ∈ KNOWN_KEYS))
              && bool_decide (typeof (Some v') = "number")
              && RegExp.test micronutrient_re k')%bool eqn:E; [|now left].
    destruct (decide (k' = k)) as [->|Hne].
    + rewrite lookup_insert_eq in H. injection H as ->.
      apply andb_true_iff in E as [E E3]. apply andb_true_iff in E as [E1 E2].
      apply negb_true_iff, bool_decide_eq_false in E1.
      apply bool_decide_eq_true in E2. right. auto.
    + rewrite lookup_insert_ne in H by assumption. now left.
Qed.

(** The seven typed copies, read back at a known key. *)
Lemma typed_copies_lookup item k :
  k ∈ KNOWN_KEYS ->
  typed_copies item !! k
  = match get item k with
    | Some v => if Spec.declared_type k v then Some v else None
    | None => None
    end.
Proof.
  intros Hk. apply known_keys_cases in Hk. unfold typed_copies.
  destruct Hk as [->|[->|[->|[->|[->|[->| ->]]]]]];
    repeat (rewrite copy_typed_lookup_ne by discriminate);
    rewrite copy_typed_lookup_eq;
    repeat (rewrite copy_typed_lookup_ne by discriminate);
    rewrite lookup_empty;
    (destruct (get item _) as [v|]; [|reflexivity]);
    destruct v; reflexivity.
Qed.

(** No typed copy lands on a key outside the known ones. *)
Lemma typed_copies_unknown item k :
  k ∉ KNOWN_KEYS ->
  typed_copies item !! k
  = None.
Proof.
  intros Hk. rewrite known_keys_cases in Hk. unfold typed_copies.
  repeat (rewrite copy_typed_lookup_ne by (intros <-; tauto)).
  apply lookup_empty.
Qed.

(** A cleaned item, field by field. *)
Lemma clean_item_lookup item cleaned k v :
  clean_item item = Ok cleaned ->
  cleaned !! k = Some v ->
  (k ∈ KNOWN_KEYS ∧ get item k = Some v ∧ Spec.declared_type k v = true)
  ∨ ((k ∉ KNOWN_KEYS) ∧ Spec.is_number v = true ∧ RegExp.test micronutrient_re k = true).
Proof.
  intros Hc Hl.
  assert (Hfold : cleaned = foldl keep_micronutrient (typed_copies item) (entries item)).
  { destruct item; try discriminate Hc; now injection Hc. }
  subst cleaned.
  destruct (decide (k ∈ KNOWN_KEYS)) as [Hin|Hout].
  - left. rewrite keep_micronutrient_known, typed_copies_lookup in Hl by assumption.
    destruct (get item k) as [v'|]; [|discriminate].
    destruct (Spec.declared_type k v') eqn:E; [|discriminate].
    injection Hl as ->. auto.
  - right. apply keep_micronutrient_added in Hl as [Hl|(_ & Hn & Ht)].
    + rewrite typed_copies_unknown in Hl by assumption. discriminate.
    + apply typeof_number in Hn. auto.
Qed.

(** Every item but [null] is cleaned. *)
Lemma clean_item_total item : item ≠ VNull -> ∃ cleaned, clean_item item = Ok cleaned.
Proof. destruct item; intros H; try (eexists; reflexivity). contradiction. Qed.

Lemma map_outcome_Forall2 {A B} (f : A -> outcome B) l ys :
  map_outcome f l = Ok ys -> Forall2 (fun x y => f x = Ok y) l ys.
Proof.
  revert ys. induction l as [|x l IH]; simpl; intros ys H.
  - injection H as <-. constructor.
  - destruct (f x) as [y|e] eqn:E; [|discriminate].
    destruct (map_outcome f l) as [ys'|e]; [|discriminate].
    injection H as <-. constructor; auto.
Qed.

Lemma map_outcome_total {A B} (f : A -> outcome B) l :
  Forall (fun x => ∃ y, f x = Ok y) l -> ∃ ys, map_outcome f l = Ok ys.
Proof.
  induction 1 as [|x l [y Hy] _ [ys Hys]]; simpl.
  - eexists; reflexivity.
  - rewrite Hy, Hys. eexists; reflexivity.
Qed.

Lemma map_outcome_throw {A B} (f : A -> outcome B) l x e :
  x ∈ l -> f x = Throw e -> ∃ e', map_outcome f l = Throw e'.
Proof.
  induction l as [|x0 l IH]; intros Hin Hx.
  - inversion Hin.
  - simpl. apply elem_of_cons in Hin as [->|Hin].
    + rewrite Hx. eauto.
    + destruct (f x0); [|eauto].
      destruct (IH Hin Hx) as [e' ->]. eauto.
Qed.

End CleanItem.

(** ** The sanitization step *)
Section Sanitize.
Import Edge.

Lemma result_items_cleaned parsed items item :
  result_items parsed = Ok items -> item ∈ items ->
  ∃ x, clean_item x = Ok item.
Proof.
  intros H Hin.
  assert (Hcase : items = [] ∨ ∃ l, map_outcome clean_item l = Ok items).
  { unfold result_items in H.
    destruct parsed; try discriminate H;
      try (destruct (get _ "items") as [[]|]; try (injection H as <-; now left); eauto). }
  destruct Hcase as [->|[l Hl]]; [inversion Hin|].
  apply map_outcome_Forall2 in Hl.
  apply list_elem_of_lookup in Hin as [i Hi].
  destruct (Forall2_lookup_r _ _ _ _ _ Hl Hi) as (x & _ & Hx). eauto.
Qed.

(** C1. For every parsed structure the sanitization step accepts, the result
    is an object with the single field [items], and every field of every
    emitted item is either one of the seven known keys carrying its declared
    type (qty, n: a string; cal, p, c, f, fib: a number) or a key matching
    the micronutrient pattern, case-insensitively, carrying a number. No
    other field appears. *)
Theorem sanitized_fields_valid (parsed res : value) :
  result parsed = Ok res ->
  ∃ items : list object,
    res = VObject {[ "items" := VArray (VObject <$> items) ]}
    ∧ ∀ item k v, item ∈ items -> item !! k = Some v -> Spec.field_ok k v.
Proof.
  unfold result. destruct (result_items parsed) as [items|e] eqn:E; [|discriminate].
  intros H. injection H as <-. exists items. split; [reflexivity|].
  intros item k v Hin Hl.
  destruct (result_items_cleaned _ _ _ E Hin) as [x Hx].
  destruct (clean_item_lookup _ _ _ _ Hx Hl) as [(Hk & _ & Ht)|(_ & Hn & Hr)].
  - left. auto.
  - right. auto.
Qed.

(** C7. A known field of an input item whose value has the wrong type is
    absent from the cleaned item: it is dropped, not coerced. *)
Theorem wrong_type_known_field_omitted (o : object) (k : string) (v : value) :
  k ∈ KNOWN_KEYS -> o !! k = Some v -> Spec.declared_type k v = false ->
  ∃ cleaned, clean_item (VObject o) = Ok cleaned ∧ cleaned !! k = None.
Proof.
  intros Hk Hv Ht. eexists. split; [reflexivity|].
  rewrite keep_micronutrient_known, typed_copies_lookup by assumption.
  simpl. rewrite Hv, Ht. reflexivity.
Qed.

(** C8, amended. Every key of a cleaned item outside the seven known keys is
    an abbreviation of 1 to 4 ASCII letters of either case, an underscore and
    one of the unit tokens mg, mcg, iu, g, mgdL, mmolL up to case, and it
    carries a number. *)
Theorem micronutrient_keys_any_case (item : value) (cleaned : object) (k : string) (v : value) :
  clean_item item = Ok cleaned -> cleaned !! k = Some v -> k ∉ KNOWN_KEYS ->
  Spec.anycase_micronutrient_key k ∧ Spec.is_number v = true.
Proof.
  intros Hc Hl Hk.
  destruct (clean_item_lookup _ _ _ _ Hc Hl) as [(Hin & _)|(_ & Hn & Hr)]; [contradiction|].
  split; [now apply micronutrient_re_spec|assumption].
Qed.

End Sanitize.

(** ** The request handler, path by path *)
Section Handler.
Import Edge Http.

Lemma configured_key w :
  credential_configured w ->
  ∃ k, env_OPENAI_API_KEY w = Some k ∧ bool_decide (k = "") = false.
Proof. intros (k & Hk & Hne). exists k. split; [assumption|now apply bool_decide_eq_false]. Qed.

Lemma unconfigured_key w :
  ¬ credential_configured w ->
  env_OPENAI_API_KEY w = None ∨ env_OPENAI_API_KEY w = Some "".
Proof.
  intros H. destruct (env_OPENAI_API_KEY w) as [k|] eqn:E; [|now left].
  destruct (decide (k = "")) as [->|Hne]; [now right|].
  exfalso. apply H. exists k. auto.
Qed.

Lemma not_preflight req :
  method req ≠ "OPTIONS" -> bool_decide (method req = "OPTIONS") = false.
Proof. apply bool_decide_eq_false. Qed.

(** The [try] block with its log written out. *)
Lemma try_block_paths w req :
  try_block w req =
  match env_OPENAI_API_KEY w with
  | None => ([], Throw (Error "OPENAI_API_KEY is not set"))
  | Some k =>
    if bool_decide (k = "") then ([], Throw (Error "OPENAI_API_KEY is not set"))
    else if negb (declares_multipart req) then
      ([], Ok (json_response 400
         (VObject {[ "error" := VString "Expected multipart/form-data with a 'file' field" ]})))
    else
      match formData req with
      | Throw e => ([], Throw e)
      | Ok fd =>
        match FormData_get fd "file" with
        | Some (EntryFile file) =>
          let trq := transcription_request file in
          match transcriptions_create w trq with
          | Throw e => ([CallTranscription trq (Throw e)], Throw e)
          | Ok t =>
            let crq := chat_request (or_else (text t) "") in
            match chat_completions_create w crq with
            | Throw e =>
                ([CallTranscription trq (Ok t); CallChat crq (Throw e)], Throw e)
            | Ok c =>
              match result (parse_or_empty w (raw_of c)) with
              | Throw e =>
                  ([CallTranscription trq (Ok t); CallChat crq (Ok c)], Throw e)
              | Ok res =>
                  ([CallTranscription trq (Ok t); CallChat crq (Ok c)],
                   Ok (json_response 200 res))
              end
            end
          end
        | _ =>
          ([], Ok (json_response 400
             (VObject {[ "error" := VString "No audio file provided under 'file'" ]})))
        end
      end
  end.
Proof.
  unfold try_block, declares_multipart, call_transcription, call_chat, throw, lift,
    mbind, M_bind, mret, M_ret.
  destruct (env_OPENAI_API_KEY w) as [k|]; [|reflexivity].
  destruct (bool_decide (k = "")); [reflexivity|].
  destruct (negb _); [reflexivity|].
  destruct (formData req) as [fd|e]; [|reflexivity].
  destruct (FormData_get fd "file") as [[s|file]|]; try reflexivity.
  cbv zeta.
  destruct (transcriptions_create w _) as [t|e]; [|reflexivity].
  destruct (chat_completions_create w _) as [c|e]; [|reflexivity].
  destruct (result _) as [res|e]; reflexivity.
Qed.

Lemma result_empty : result empty_result = Ok empty_result.
Proof. reflexivity. Qed.

Lemma error_response_shape st msg :
  status (json_response st (VObject {[ "error" := VString msg ]})) = st
  ∧ body (json_response st (VObject {[ "error" := VString msg ]})) = error_body msg
  ∧ no_items_payload (json_response st (VObject {[ "error" := VString msg ]})).
Proof.
  repeat split. intros v Hv. simpl in Hv. injection Hv as <-.
  simpl. now apply lookup_singleton_ne.
Qed.

(** Split a fact about the handler along the branches it takes. *)
Ltac handler_paths H :=
  unfold handler in H; rewrite try_block_paths in H; cbv zeta in H;
  repeat match type of H with
         | context [match ?x with _ => _ end] =>
             lazymatch x with
             | context [match _ with _ => _ end] => fail
             | _ => destruct x eqn:?
             end
         end.

(** Read one entry of a log that is written out. *)
Ltac log_entry H :=
  repeat (apply elem_of_cons in H as [H|H]; [try discriminate H|]);
  try (apply elem_of_nil in H; contradiction).

(** C3. When the structuring step of a run returned a completion whose text
    fails to parse as JSON, the response has the success status 200 and its
    body is exactly the empty item list: the failure is recovered, not
    surfaced. *)
Theorem unparsable_output_gives_empty_items
    (w : World) (req : Request) (resp : Response) (log : list Call)
    (rq : ChatRequest) (completion : ChatCompletion) :
  handler w req = (resp, log) ->
  CallChat rq (Ok completion) ∈ log ->
  JSON_parse w (raw_of completion) = None ->
  status resp = 200%nat
  ∧ body resp = JSON_stringify (VObject {[ "items" := VArray [] ]})
  ∧ success resp.
Proof.
  intros H Hin Hp.
  handler_paths H; injection H as <- <-; log_entry Hin;
    injection Hin as -> ->;
    match goal with
    | E : result (parse_or_empty _ _) = _ |- _ =>
        unfold parse_or_empty in E; rewrite Hp, result_empty in E
    end;
    try discriminate.
  match goal with E : Ok _ = Ok _ |- _ => injection E as <- end.
  unfold success. simpl. repeat split; lia.
Qed.

(** C4, amended. For every request other than a CORS preflight, when the
    service credential is not configured, or a transcription or structuring
    call of the run threw, the response has status 500 and the body
    [{ error: message }] with that fault's message, and carries no items. *)
Theorem fault_is_all_or_nothing
    (w : World) (req : Request) (resp : Response) (log : list Call) (msg : string) :
  method req ≠ "OPTIONS" ->
  handler w req = (resp, log) ->
  fault w log msg ->
  status resp = 500%nat ∧ server_error resp
  ∧ body resp = error_body msg ∧ no_items_payload resp.
Proof.
  intros Hm H Hf.
  assert (Hshape : ∀ m, resp = json_response 500 (VObject {[ "error" := VString m ]}) ->
            status resp = 500%nat ∧ server_error resp
            ∧ body resp = error_body m ∧ no_items_payload resp).
  { intros m ->. destruct (error_response_shape 500 m) as (Hs & Hb & Hn).
    unfold server_error. rewrite Hs. repeat split; auto; lia. }
  apply Hshape. clear Hshape.
  destruct Hf as [Hc|rq e Hin|rq e Hin].
  - apply unconfigured_key in Hc.
    unfold handler in H. rewrite (not_preflight _ Hm), try_block_paths in H.
    destruct Hc as [Hc|Hc]; rewrite Hc in H; injection H as <- <-; reflexivity.
  - handler_paths H; try (exfalso; now apply Hm; eapply bool_decide_eq_true; eassumption);
      injection H as <- <-; log_entry Hin; injection Hin as -> ->;
      congruence.
  - handler_paths H; try (exfalso; now apply Hm; eapply bool_decide_eq_true; eassumption);
      injection H as <- <-; log_entry Hin; injection Hin as -> ->;
      congruence.
Qed.

End Handler.

(** ** Requests rejected before any upstream call *)
Section Rejections.
Import Edge Http.

Lemma handler_configured w req :
  method req ≠ "OPTIONS" -> credential_configured w ->
  handler w req =
  match
    (if negb (declares_multipart req) then
       ([], Ok (json_response 400
          (VObject {[ "error" := VString "Expected multipart/form-data with a 'file' field" ]})))
     else
       match formData req with
       | Throw e => ([], Throw e)
       | Ok fd =>
         match FormData_get fd "file" with
         | Some (EntryFile file) => try_block w req
         | _ =>
           ([], Ok (json_response 400
              (VObject {[ "error" := VString "No audio file provided under 'file'" ]})))
         end
       end) : M Response
  with
  | (log, Ok resp) => (resp, log)
  | (log, Throw e) => (json_response 500 (VObject {[ "error" := VString (message_of e) ]}), log)
  end.
Proof.
  intros Hm Hc. apply configured_key in Hc as (k & Hk & Hne).
  unfold handler. rewrite (not_preflight _ Hm).
  destruct (negb (declares_multipart req)) eqn:Emp.
  - rewrite try_block_paths, Hk, Hne, Emp. reflexivity.
  - destruct (formData req) as [fd|e] eqn:Efd.
    + destruct (FormData_get fd "file") as [[s|file]|] eqn:Eg; [|reflexivity|];
        rewrite try_block_paths, Hk, Hne, Emp, Efd, Eg; reflexivity.
    + rewrite try_block_paths, Hk, Hne, Emp, Efd. reflexivity.
Qed.

(** C5, amended. For every request other than a CORS preflight, served with
    the credential configured, whose content type does not name multipart
    form data, the response has status 400 and the body
    [{ error: Expected multipart/form-data with a 'file' field }], and no
    upstream call is made. *)
Theorem non_multipart_rejected (w : World) (req : Request) :
  method req ≠ "OPTIONS" -> credential_configured w ->
  declares_multipart req = false ->
  ∃ resp, handler w req = (resp, [])
    ∧ status resp = 400%nat ∧ client_error resp
    ∧ body resp = error_body "Expected multipart/form-data with a 'file' field".
Proof.
  intros Hm Hc Hmp. rewrite (handler_configured _ _ Hm Hc), Hmp. simpl.
  eexists. split; [reflexivity|]. unfold client_error. simpl. repeat split; lia.
Qed.

(** C6, amended. For every request other than a CORS preflight, served with
    the credential configured, whose content type contains the text
    multipart/form-data (the handler's case-sensitive substring test) and
    whose form has no field [file], the response has status 400 and the
    body [{ error: No audio file provided under 'file' }], and no upstream
    call is made. *)
Theorem missing_file_rejected (w : World) (req : Request) (fd : FormData) :
  method req ≠ "OPTIONS" -> credential_configured w ->
  declares_multipart req = true ->
  formData req = Ok fd -> FormData_get fd "file" = None ->
  ∃ resp, handler w req = (resp, [])
    ∧ status resp = 400%nat ∧ client_error resp
    ∧ body resp = error_body "No audio file provided under 'file'".
Proof.
  intros Hm Hc Hmp Hfd Hg. rewrite (handler_configured _ _ Hm Hc), Hmp, Hfd, Hg. simpl.
  eexists. split; [reflexivity|]. unfold client_error. simpl. repeat split; lia.
Qed.

(** The guard reads only whether the [file] entry is a blob. *)
Lemma handler_without_blob w req fd fd' :
  formData req = Ok fd ->
  (∀ b, FormData_get fd "file" ≠ Some (EntryFile b)) ->
  (∀ b, FormData_get fd' "file" ≠ Some (EntryFile b)) ->
  handler w req
  = handler w {| method := method req;
                 header_content_type := header_content_type req;
                 formData := Ok fd' |}.
Proof.
  intros Hfd Hg Hg'. unfold handler. rewrite !try_block_paths.
  unfold declares_multipart. simpl. rewrite Hfd.
  destruct (FormData_get fd "file") as [[s|b]|]; try (now destruct (Hg b));
    destruct (FormData_get fd' "file") as [[s'|b']|]; try (now destruct (Hg' b'));
    reflexivity.
Qed.

(** C10, amended. When the form's [file] entry is a text value and not a
    blob, the service responds exactly as it does to the same request with
    no [file] entry; and for a request other than a CORS preflight, served
    with the credential configured, whose content type contains the text
    multipart/form-data (the handler's case-sensitive substring test), that
    response has status 400 and the body
    [{ error: No audio file provided under 'file' }], with no upstream call. *)
Theorem text_file_field_rejected (w : World) (req : Request) (fd : FormData) (s : string) :
  formData req = Ok fd -> FormData_get fd "file" = Some (EntryString s) ->
  (∀ fd', FormData_get fd' "file" = None ->
     handler w req
     = handler w {| method := method req;
                    header_content_type := header_content_type req;
                    formData := Ok fd' |})
  ∧ (method req ≠ "OPTIONS" -> credential_configured w ->
     declares_multipart req = true ->
     ∃ resp, handler w req = (resp, [])
       ∧ status resp = 400%nat ∧ client_error resp
       ∧ body resp = error_body "No audio file provided under 'file'").
Proof.
  intros Hfd Hg. split.
  - intros fd' Hg'. apply (handler_without_blob _ _ fd); [assumption| |];
      intros b Hb; congruence.
  - intros Hm Hc Hmp. rewrite (handler_configured _ _ Hm Hc), Hmp, Hfd, Hg. simpl.
    eexists. split; [reflexivity|]. unfold client_error. simpl. repeat split; lia.
Qed.

End Rejections.

(** ** The aggregation step *)
Section Aggregation.
Import Confirmation.
Variable StringToNumber : string -> float.

Lemma foldl_add_item_macro (proj : Totals -> float) (k : string) :
  (∀ acc it, proj (add_item StringToNumber acc it)
             = (proj acc + macro StringToNumber it k)%float) ->
  ∀ (list : list TokenItem) (acc : Totals),
    proj (foldl (add_item StringToNumber) acc list)
    = foldl (fun a it => (a + macro StringToNumber it k)%float) (proj acc) list.
Proof.
  intros Hstep list. induction list as [|it list IH]; intros acc.
  - reflexivity.
  - change (foldl (add_item StringToNumber) acc (it :: list))
      with (foldl (add_item StringToNumber) (add_item StringToNumber acc it) list).
    rewrite IH, Hstep. reflexivity.
Qed.

Lemma macro_missing (it : TokenItem) (k : string) :
  it !! k = None -> macro StringToNumber it k = 0%float.
Proof. intros H. unfold macro. rewrite H. reflexivity. Qed.

End Aggregation.

(** C9. [computeTotals] sums the per-item macros into the meal totals, each
    total being the left-to-right sum, from 0, of [Number(it.k || 0)] over
    the items; for two items with cal 100, p 5 and cal 200, p 10 the totals
    are total_calories 300 and protein 15 (the other macros 0); and a macro
    field an item lacks contributes 0. *)
Theorem computeTotals_sums_macros (StringToNumber : string -> float) :
  (∀ list : list Confirmation.TokenItem,
     let sum k := foldl (fun a it => (a + Confirmation.macro StringToNumber it k)%float)
                    0%float list in
     let totals := Confirmation.computeTotals StringToNumber list in
     Confirmation.total_calories totals = sum "cal"
     ∧ Confirmation.protein totals = sum "p"
     ∧ Confirmation.carbs totals = sum "c"
     ∧ Confirmation.fat totals = sum "f"
     ∧ Confirmation.fiber totals = sum "fib")
  ∧ (∀ q1 n1 q2 n2 : string,
       Confirmation.computeTotals StringToNumber
         [ <[ "qty" := Confirmation.FString q1 ]> (<[ "n" := Confirmation.FString n1 ]>
             (<[ "cal" := Confirmation.FNumber 100 ]> (<[ "p" := Confirmation.FNumber 5 ]> ∅)));
           <[ "qty" := Confirmation.FString q2 ]> (<[ "n" := Confirmation.FString n2 ]>
             (<[ "cal" := Confirmation.FNumber 200 ]> (<[ "p" := Confirmation.FNumber 10 ]> ∅))) ]
       = {| Confirmation.total_calories := 300; Confirmation.protein := 15;
            Confirmation.carbs := 0; Confirmation.fat := 0; Confirmation.fiber := 0;
            Confirmation.micronutrients := ∅ |})
  ∧ (∀ (it : Confirmation.TokenItem) (k : string),
       it !! k = None -> Confirmation.macro StringToNumber it k = 0%float).
Proof.
  split; [|split].
  - intros list. cbv zeta. unfold Confirmation.computeTotals.
    repeat split.
    + exact (foldl_add_item_macro StringToNumber Confirmation.total_calories "cal"
               (fun _ _ => eq_refl) list Confirmation.no_totals).
    + exact (foldl_add_item_macro StringToNumber Confirmation.protein "p"
               (fun _ _ => eq_refl) list Confirmation.no_totals).
    + exact (foldl_add_item_macro StringToNumber Confirmation.carbs "c"
               (fun _ _ => eq_refl) list Confirmation.no_totals).
    + exact (foldl_add_item_macro StringToNumber Confirmation.fat "f"
               (fun _ _ => eq_refl) list Confirmation.no_totals).
    + exact (foldl_add_item_macro StringToNumber Confirmation.fiber "fib"
               (fun _ _ => eq_refl) list Confirmation.no_totals).
  - intros q1 n1 q2 n2. vm_compute. reflexivity.
  - apply macro_missing.
Qed.

Lemma computeTotals_sums_macros_witness :
  Confirmation.macro (fun _ => nan) {[ "cal" := Confirmation.FNumber 100 ]} "p" = 0%float.
Proof.
  apply (computeTotals_sums_macros (fun _ => nan)). vm_compute. reflexivity.
Defined.

(** ** The claims at sample inputs *)
Section Instances.
Import Edge Http.

Lemma sanitized_fields_valid_witness :
  result Sample.toast_parsed = Ok Sample.toast_result
  ∧ ∃ items : list object,
      Sample.toast_result = VObject {[ "items" := VArray (VObject <$> items) ]}
      ∧ ∀ item k v, item ∈ items -> item !! k = Some v -> Spec.field_ok k v.
Proof.
  assert (H : result Sample.toast_parsed = Ok Sample.toast_result)
    by (vm_compute; reflexivity).
  split; [exact H|exact (sanitized_fields_valid _ _ H)].
Defined.

Lemma wrong_type_known_field_omitted_witness :
  ∃ cleaned, clean_item (VObject {[ "cal" := VString "160" ]}) = Ok cleaned
             ∧ cleaned !! "cal" = None.
Proof.
  apply (wrong_type_known_field_omitted {[ "cal" := VString "160" ]} "cal" (VString "160")).
  - apply known_keys_cases. do 2 right. left. reflexivity.
  - vm_compute. reflexivity.
  - vm_compute. reflexivity.
Defined.

(** C8 as stated fails: an upper-case abbreviation passes the filter. The
    item [{ FE_mg: 3 }] keeps its key [FE_mg], which is no lowercase
    micronutrient key. *)
Lemma uppercase_key_survives :
  clean_item (VObject {[ "FE_mg" := VNumber 3 ]}) = Ok {[ "FE_mg" := VNumber 3 ]}
  ∧ ({[ "FE_mg" := VNumber 3 ]} : object) !! "FE_mg" = Some (VNumber 3)
  ∧ ("FE_mg" ∉ KNOWN_KEYS)
  ∧ ¬ Spec.lowercase_micronutrient_key "FE_mg".
Proof.
  split; [vm_compute; reflexivity|].
  split; [vm_compute; reflexivity|].
  split.
  - rewrite known_keys_cases. intros H.
    repeat (destruct H as [H|H]; [discriminate H|]). discriminate H.
  - intros (abbr & unit & E & Hlen & Hall & _).
    destruct abbr as [|a abbr]; [simpl in Hlen; lia|].
    injection E as <- _. inversion Hall as [|? ? Hlow _]. discriminate Hlow.
Qed.

Lemma micronutrient_keys_any_case_witness :
  Spec.anycase_micronutrient_key "FE_mg" ∧ Spec.is_number (VNumber 3) = true.
Proof.
  apply (micronutrient_keys_any_case
           (VObject {[ "FE_mg" := VNumber 3 ]}) {[ "FE_mg" := VNumber 3 ]} "FE_mg").
  - vm_compute. reflexivity.
  - vm_compute. reflexivity.
  - rewrite known_keys_cases. intros H.
    repeat (destruct H as [H|H]; [discriminate H|]). discriminate H.
Defined.

(** C2 at a failing input: a [null] among the items makes the sanitization
    step throw, and the whole request ends in a 500 response with no item
    list at all. *)
Theorem null_item_aborts_request :
  result Sample.null_item_parsed
  = Throw (Error "Cannot read properties of null (reading 'qty')")
  ∧ (handler (Sample.configured "reply" (fun _ => Some Sample.null_item_parsed))
       Sample.upload).1
    = json_response 500
        (VObject {[ "error" := VString "Cannot read properties of null (reading 'qty')" ]}).
Proof. split; vm_compute; reflexivity. Qed.

Lemma unparsable_output_gives_empty_items_witness :
  status (handler (Sample.configured "I am sorry" (fun _ => None)) Sample.upload).1 = 200%nat
  ∧ body (handler (Sample.configured "I am sorry" (fun _ => None)) Sample.upload).1
    = JSON_stringify (VObject {[ "items" := VArray [] ]})
  ∧ success (handler (Sample.configured "I am sorry" (fun _ => None)) Sample.upload).1.
Proof.
  apply (unparsable_output_gives_empty_items
           (Sample.configured "I am sorry" (fun _ => None)) Sample.upload _
           (handler (Sample.configured "I am sorry" (fun _ => None)) Sample.upload).2
           (chat_request "two eggs")
           {| choices := Some [ {| message := Some {| content := Some "I am sorry" |} |} ] |}).
  - vm_compute. reflexivity.
  - vm_compute. apply list_elem_of_further, list_elem_of_here.
  - reflexivity.
Defined.

(** C4 as stated fails: a CORS preflight is answered with status 200 and no
    body even when the credential is absent. *)
Lemma preflight_ignores_missing_credential :
  env_OPENAI_API_KEY Sample.unconfigured = None
  ∧ handler Sample.unconfigured Sample.preflight
    = ({| status := 200; headers := corsHeaders; body := NoBody |}, [])
  ∧ ¬ server_error (handler Sample.unconfigured Sample.preflight).1.
Proof.
  split; [reflexivity|]. split; [vm_compute; reflexivity|].
  unfold server_error. vm_compute. intros [H _].
  repeat (apply le_S_n in H). inversion H.
Qed.

Lemma fault_is_all_or_nothing_witness :
  status (handler Sample.unconfigured Sample.upload).1 = 500%nat
  ∧ server_error (handler Sample.unconfigured Sample.upload).1
  ∧ body (handler Sample.unconfigured Sample.upload).1 = error_body "OPENAI_API_KEY is not set"
  ∧ no_items_payload (handler Sample.unconfigured Sample.upload).1.
Proof.
  apply (fault_is_all_or_nothing Sample.unconfigured Sample.upload _
           (handler Sample.unconfigured Sample.upload).2).
  - vm_compute. discriminate.
  - vm_compute. reflexivity.
  - apply NoCredential. intros (k & Hk & _). vm_compute in Hk. discriminate Hk.
Defined.

(** C5 as stated fails: without the credential a non-multipart request is
    answered with status 500, not a client error. *)
Lemma non_multipart_without_credential :
  declares_multipart (Sample.post (Some "application/json") []) = false
  ∧ (handler Sample.unconfigured (Sample.post (Some "application/json") [])).1
    = json_response 500 (VObject {[ "error" := VString "OPENAI_API_KEY is not set" ]})
  ∧ ¬ client_error (handler Sample.unconfigured (Sample.post (Some "application/json") [])).1.
Proof.
  split; [vm_compute; reflexivity|]. split; [vm_compute; reflexivity|].
  unfold client_error. vm_compute. intros [_ H]. lia.
Qed.

Lemma non_multipart_rejected_witness :
  ∃ resp,
    handler (Sample.configured "" (fun _ => None)) (Sample.post (Some "application/json") [])
    = (resp, [])
    ∧ status resp = 400%nat ∧ client_error resp
    ∧ body resp = error_body "Expected multipart/form-data with a 'file' field".
Proof.
  apply (non_multipart_rejected (Sample.configured "" (fun _ => None))
           (Sample.post (Some "application/json") [])).
  - vm_compute. discriminate.
  - exists "sk-test". split; [reflexivity|discriminate].
  - vm_compute. reflexivity.
Defined.

(** C6 as stated fails: without the credential a multipart request with no
    [file] field is answered with status 500, not a client error. *)
Lemma missing_file_without_credential :
  declares_multipart (Sample.post Sample.multipart []) = true
  ∧ FormData_get [] "file" = None
  ∧ (handler Sample.unconfigured (Sample.post Sample.multipart [])).1
    = json_response 500 (VObject {[ "error" := VString "OPENAI_API_KEY is not set" ]})
  ∧ ¬ client_error (handler Sample.unconfigured (Sample.post Sample.multipart [])).1.
Proof.
  split; [vm_compute; reflexivity|]. split; [reflexivity|].
  split; [vm_compute; reflexivity|].
  unfold client_error. vm_compute. intros [_ H]. lia.
Qed.

Lemma missing_file_rejected_witness :
  ∃ resp,
    handler (Sample.configured "" (fun _ => None)) (Sample.post Sample.multipart [])
    = (resp, [])
    ∧ status resp = 400%nat ∧ client_error resp
    ∧ body resp = error_body "No audio file provided under 'file'".
Proof.
  apply (missing_file_rejected (Sample.configured "" (fun _ => None))
           (Sample.post Sample.multipart []) []).
  - vm_compute. discriminate.
  - exists "sk-test". split; [reflexivity|discriminate].
  - vm_compute. reflexivity.
  - reflexivity.
  - reflexivity.
Defined.

(** C10 as stated fails: without the credential a multipart request whose
    [file] field is a text value is answered with status 500, not the
    client error of the missing-file case. *)
Lemma text_file_without_credential :
  declares_multipart (Sample.post Sample.multipart [ ("file", EntryString "hello") ]) = true
  ∧ FormData_get [ ("file", EntryString "hello") ] "file" = Some (EntryString "hello")
  ∧ (handler Sample.unconfigured
       (Sample.post Sample.multipart [ ("file", EntryString "hello") ])).1
    = json_response 500 (VObject {[ "error" := VString "OPENAI_API_KEY is not set" ]})
  ∧ ¬ client_error
        (handler Sample.unconfigured
           (Sample.post Sample.multipart [ ("file", EntryString "hello") ])).1.
Proof.
  split; [vm_compute; reflexivity|]. split; [vm_compute; reflexivity|].
  split; [vm_compute; reflexivity|].
  unfold client_error. vm_compute. intros [_ H]. lia.
Qed.

Lemma text_file_field_rejected_witness :
  (∀ fd', FormData_get fd' "file" = None ->
     handler (Sample.configured "" (fun _ => None))
       (Sample.post Sample.multipart [ ("file", EntryString "hello") ])
     = handler (Sample.configured "" (fun _ => None))
         {| method := "POST"; header_content_type := Sample.multipart; formData := Ok fd' |})
  ∧ ∃ resp,
      handler (Sample.configured "" (fun _ => None))
        (Sample.post Sample.multipart [ ("file", EntryString "hello") ])
      = (resp, [])
      ∧ status resp = 400%nat ∧ client_error resp
      ∧ body resp = error_body "No audio file provided under 'file'".
Proof.
  destruct (text_file_field_rejected (Sample.configured "" (fun _ => None))
              (Sample.post Sample.multipart [ ("file", EntryString "hello") ])
              [ ("file", EntryString "hello") ] "hello") as [Hsame Hresp].
  - reflexivity.
  - vm_compute. reflexivity.
  - split; [exact Hsame|]. apply Hresp.
    + vm_compute. discriminate.
    + exists "sk-test". split; [reflexivity|discriminate].
    + vm_compute. reflexivity.
Defined.

End Instances.

(** ** Further properties of the sanitization step *)
Section SanitizeMore.
Import Edge.

Lemma keep_micronutrient_rejected entries (m : object) :
  Forall (fun kv => RegExp.test micronutrient_re kv.1 = false) entries ->
  foldl keep_micronutrient m entries = m.
Proof.
  intros H. revert m. induction H as [|[k v] es Hk _ IH]; intros m.
  - reflexivity.
  - change (foldl keep_micronutrient m ((k, v) :: es))
      with (foldl keep_micronutrient (keep_micronutrient m (k, v)) es).
    rewrite IH, keep_micronutrient_step. simpl in Hk. rewrite Hk.
    now rewrite andb_false_r.
Qed.

Lemma index_key_head i ch s : index_key i = String ch s -> Spec.is_letter ch = false.
Proof.
  unfold index_key, NilZero.string_of_uint.
  destruct (Nat.to_uint i); simpl; intros H; injection H as <- _; reflexivity.
Qed.

Lemma index_key_not_micronutrient i : RegExp.test micronutrient_re (index_key i) = false.
Proof.
  destruct (RegExp.test micronutrient_re (index_key i)) eqn:E; [|reflexivity].
  apply micronutrient_re_spec in E as (abbr & unit & Hk & Hlen & Hall & _).
  destruct abbr as [|a abbr]; [simpl in Hlen; lia|].
  inversion Hall as [|? ? Ha _]; subst.
  apply index_key_head in Hk. congruence.
Qed.

Lemma indexed_entries_rejected {A} (f : A -> value) (l : list A) (g : nat -> nat) :
  Forall (fun kv => RegExp.test micronutrient_re kv.1 = false)
    (imap (fun i x => (index_key (g i), f x)) l).
Proof.
  revert g. induction l as [|x l IH]; intros g; simpl.
  - constructor.
  - constructor; [apply index_key_not_micronutrient|]. apply (IH (g ∘ S)).
Qed.

(** The loop over the entries of an object, read back at one key. *)
Lemma keep_micronutrient_lookup (es : list (string * value)) (m : object) k :
  NoDup es.*1 ->
  foldl keep_micronutrient m es !! k =
  match (list_to_map es : object) !! k with
  | Some v =>
      if (negb (bool_decide (k ∈ KNOWN_KEYS))
          && bool_decide (typeof (Some v) = "number")
          && RegExp.test micronutrient_re k)%bool
      then Some v else m !! k
  | None => m !! k
  end.
Proof.
  intros Hnd. revert m. induction es as [|[k' v'] es IH]; intros m.
  - reflexivity.
  - change (foldl keep_micronutrient m ((k', v') :: es))
      with (foldl keep_micronutrient (keep_micronutrient m (k', v')) es).
    simpl in Hnd. apply NoDup_cons in Hnd as [Hfresh Hnd].
    rewrite (IH Hnd), keep_micronutrient_step.
    change (list_to_map ((k', v') :: es) : object)
      with (<[k' := v']> (list_to_map es : object)).
    destruct (decide (k' = k)) as [->|Hne].
    + rewrite lookup_insert_eq.
      rewrite (not_elem_of_list_to_map_1 (M:=gmap string) es k Hfresh).
      match goal with |- (if ?b then _ else _) !! _ = _ => destruct b end;
        [now rewrite lookup_insert_eq|reflexivity].
    + rewrite lookup_insert_ne by assumption.
      assert (Hm : (if (negb (bool_decide (k' ∈ KNOWN_KEYS))
                        && bool_decide (typeof (Some v') = "number")
                        && RegExp.test micronutrient_re k')%bool
                    then <[k' := v']> m else m) !! k = m !! k).
      { match goal with |- (if ?b then _ else _) !! _ = _ => destruct b end;
          [now rewrite lookup_insert_ne|reflexivity]. }
      rewrite Hm. reflexivity.
Qed.

End SanitizeMore.

Section SanitizeExtras.
Import Edge Http.

(** X1. When the parsed object has an [items] array with no [null] element,
    sanitization yields exactly one cleaned item per input item, in order:
    the output has the input's length. *)
Theorem sanitize_keeps_every_item (o : object) (l : list value) :
  o !! "items" = Some (VArray l) ->
  Forall (fun x => x ≠ VNull) l ->
  ∃ out : list object,
    result (VObject o) = Ok (VObject {[ "items" := VArray (VObject <$> out) ]})
    ∧ length out = length l
    ∧ Forall2 (fun x y => clean_item x = Ok y) l out.
Proof.
  intros Ho Hl.
  destruct (map_outcome_total clean_item l) as [out Hout].
  { eapply Forall_impl; [exact Hl|]. intros x Hx. now apply clean_item_total. }
  exists out. unfold result, result_items. simpl. rewrite Ho, Hout.
  split; [reflexivity|].
  apply map_outcome_Forall2 in Hout. split; [|assumption].
  symmetry. eapply Forall2_length; eassumption.
Qed.

Lemma sanitize_keeps_every_item_witness :
  ∃ out : list object,
    result Sample.toast_parsed = Ok (VObject {[ "items" := VArray (VObject <$> out) ]})
    ∧ length out = 1%nat
    ∧ Forall2 (fun x y => clean_item x = Ok y) [ VObject Sample.toast ] out.
Proof.
  apply (sanitize_keeps_every_item {[ "items" := VArray [ VObject Sample.toast ] ]}
           [ VObject Sample.toast ]).
  - vm_compute. reflexivity.
  - constructor; [discriminate|constructor].
Defined.

Lemma map_outcome_clean_throw l e :
  map_outcome clean_item l = Throw e -> e = Error (null_read "qty").
Proof.
  induction l as [|x l IH]; simpl; [discriminate|].
  destruct (clean_item x) as [y|e'] eqn:Ex.
  - destruct (map_outcome clean_item l); [discriminate|].
    intros H. injection H as <-. now apply IH.
  - intros H. injection H as <-. destruct x; try discriminate Ex. now injection Ex.
Qed.

(** X2. A [null] anywhere in the [items] array makes the sanitization step
    throw the TypeError of reading [qty] of [null]. *)
Theorem null_item_throws (o : object) (l : list value) :
  o !! "items" = Some (VArray l) -> VNull ∈ l ->
  result (VObject o) = Throw (Error (null_read "qty")).
Proof.
  intros Ho Hin. unfold result, result_items. simpl. rewrite Ho.
  destruct (map_outcome_throw clean_item l VNull _ Hin eq_refl) as [e He].
  rewrite He. now rewrite (map_outcome_clean_throw _ _ He).
Qed.

Lemma null_item_throws_witness :
  result Sample.null_item_parsed = Throw (Error (null_read "qty")).
Proof.
  apply (null_item_throws {[ "items" := VArray [ VObject Sample.toast; VNull ] ]}
           [ VObject Sample.toast; VNull ]).
  - vm_compute. reflexivity.
  - apply list_elem_of_further, list_elem_of_here.
Defined.

(** X3. The micronutrient pattern accepts exactly the keys made of 1 to 4
    ASCII letters of either case, an underscore, and one of the unit tokens
    up to case. *)
Theorem micronutrient_pattern_accepts (k : string) :
  RegExp.test micronutrient_re k = true <-> Spec.anycase_micronutrient_key k.
Proof. apply micronutrient_re_spec. Qed.

(** The round trip of the specification: the toast item keeps its typed
    macros and [k_mg], and loses [notes]. *)
Theorem toast_round_trip :
  clean_item (VObject Sample.toast) = Ok Sample.toast_cleaned
  ∧ Sample.toast !! "notes" = Some (VString "great")
  ∧ Sample.toast_cleaned !! "notes" = None.
Proof. repeat split; vm_compute; reflexivity. Qed.

(** X5. Cleaning an object is a filter: a field is kept, with its value
    unchanged, exactly when it is a known key of the declared type, or a
    numeric field outside the known keys whose key matches the pattern. *)
Theorem clean_item_is_a_filter (o : object) (k : string) :
  ∃ cleaned, clean_item (VObject o) = Ok cleaned
    ∧ cleaned !! k =
      match o !! k with
      | Some v =>
          if (if bool_decide (k ∈ KNOWN_KEYS) then Spec.declared_type k v
              else Spec.is_number v && RegExp.test micronutrient_re k)%bool
          then Some v else None
      | None => None
      end.
Proof.
  eexists. split; [reflexivity|].
  destruct (decide (k ∈ KNOWN_KEYS)) as [Hin|Hout].
  - rewrite keep_micronutrient_known, typed_copies_lookup by assumption.
    rewrite (bool_decide_eq_true_2 _ Hin). reflexivity.
  - rewrite (bool_decide_eq_false_2 _ Hout).
    change (entries (VObject o)) with (map_to_list o).
    rewrite keep_micronutrient_lookup by apply NoDup_fst_map_to_list.
    rewrite list_to_map_to_list, typed_copies_unknown by assumption.
    rewrite (bool_decide_eq_false_2 _ Hout).
    destruct (o !! k) as [v|]; [|reflexivity].
    destruct v; reflexivity.
Qed.

(** X6. An item that is a boolean, a number, a string or an array carries
    none of the fields read, and is kept as the empty object. *)
Theorem non_object_item_cleans_to_empty (item : value) :
  (∀ o, item ≠ VObject o) -> item ≠ VNull -> clean_item item = Ok ∅.
Proof.
  intros Ho Hn. destruct item as [|b|x|s|l|o]; try contradiction.
  - reflexivity.
  - reflexivity.
  - unfold clean_item, entries.
    rewrite (keep_micronutrient_rejected _ _
               (indexed_entries_rejected (fun c => VString (String c "")) _ id)).
    reflexivity.
  - unfold clean_item, entries.
    rewrite (keep_micronutrient_rejected _ _ (indexed_entries_rejected id l id)).
    reflexivity.
  - now destruct (Ho o).
Qed.

Lemma non_object_item_cleans_to_empty_witness :
  clean_item (VArray [ VNumber 1; VNumber 2 ]) = Ok ∅.
Proof.
  apply (non_object_item_cleans_to_empty (VArray [ VNumber 1; VNumber 2 ])); discriminate.
Defined.

(** X7. A parsed structure other than [null] with no [items] array (a missing
    field, or a field that is not an array) sanitizes to the empty item
    list. *)
Theorem missing_items_array_gives_empty (parsed : value) :
  parsed ≠ VNull -> (∀ l, get parsed "items" ≠ Some (VArray l)) ->
  result parsed = Ok empty_result.
Proof.
  intros Hn Hl. unfold result, result_items.
  destruct (get parsed "items") as [[| | | |l|]|] eqn:E;
    try (now destruct (Hl l)); destruct parsed; try contradiction; reflexivity.
Qed.

Lemma missing_items_array_gives_empty_witness :
  result (VObject {[ "items" := VString "none" ]}) = Ok empty_result.
Proof.
  apply (missing_items_array_gives_empty (VObject {[ "items" := VString "none" ]})).
  - discriminate.
  - intros l. vm_compute. discriminate.
Defined.

End SanitizeExtras.

(** ** Further properties of the request handler *)
Section HandlerExtras.
Import Edge Http.

(** X8. A CORS preflight is answered with status 200, the CORS headers and
    no body, whatever the deployment, and makes no upstream call. *)
Theorem preflight_answered (w : World) (req : Request) :
  method req = "OPTIONS" ->
  handler w req = ({| status := 200; headers := corsHeaders; body := NoBody |}, []).
Proof.
  intros Hm. unfold handler. now rewrite (bool_decide_eq_true_2 _ Hm).
Qed.

Lemma preflight_answered_witness :
  handler Sample.unconfigured Sample.preflight
  = ({| status := 200; headers := corsHeaders; body := NoBody |}, []).
Proof. apply (preflight_answered Sample.unconfigured Sample.preflight). reflexivity. Defined.



(** X10. When reading the multipart body throws, the request ends in a 500
    response carrying the fault's message, and no upstream call is made. *)
Theorem form_fault_is_server_error (w : World) (req : Request) (e : exn) :
  method req ≠ "OPTIONS" -> credential_configured w ->
  declares_multipart req = true -> formData req = Throw e ->
  handler w req
  = (json_response 500 (VObject {[ "error" := VString (message_of e) ]}), []).
Proof.
  intros Hm Hc Hmp Hfd.
  rewrite (handler_configured _ _ Hm Hc), Hmp, Hfd. reflexivity.
Qed.

Lemma form_fault_is_server_error_witness :
  handler (Sample.configured "" (fun _ => None))
    {| method := "POST"; header_content_type := Sample.multipart;
       formData := Throw (Error "Body can not be decoded as form data") |}
  = (json_response 500
       (VObject {[ "error" := VString "Body can not be decoded as form data" ]}), []).
Proof.
  apply (form_fault_is_server_error (Sample.configured "" (fun _ => None))
           {| method := "POST"; header_content_type := Sample.multipart;
              formData := Throw (Error "Body can not be decoded as form data") |}
           (Error "Body can not be decoded as form data")).
  - vm_compute. discriminate.
  - exists "sk-test". split; [reflexivity|discriminate].
  - vm_compute. reflexivity.
  - reflexivity.
Defined.

(** When the structuring output parses to [null], reading its [items]
    throws, and the request ends in a 500 response. *)
Theorem null_structure_aborts_request :
  result VNull = Throw (Error "Cannot read properties of null (reading 'items')")
  ∧ (handler (Sample.configured "null" (fun _ => Some VNull)) Sample.upload).1
    = json_response 500
        (VObject {[ "error" := VString "Cannot read properties of null (reading 'items')" ]}).
Proof. split; vm_compute; reflexivity. Qed.

End HandlerExtras.

(** ** The pattern on sample keys *)
Section PatternSamples.
Import Edge.

Example pattern_accepts_k_mg : RegExp.test micronutrient_re "k_mg" = true.
Proof. reflexivity. Qed.

Example pattern_accepts_vitd_iu : RegExp.test micronutrient_re "vitd_iu" = true.
Proof. reflexivity. Qed.

Example pattern_accepts_upper_case : RegExp.test micronutrient_re "CHOL_MGDL" = true.
Proof. reflexivity. Qed.

Example pattern_rejects_notes : RegExp.test micronutrient_re "notes" = false.
Proof. reflexivity. Qed.

Example pattern_rejects_long_abbreviation : RegExp.test micronutrient_re "folate_mcg" = false.
Proof. reflexivity. Qed.

Example pattern_rejects_unknown_unit : RegExp.test micronutrient_re "k_kg" = false.
Proof. reflexivity. Qed.

Example pattern_rejects_trailing_text : RegExp.test micronutrient_re "k_mg " = false.
Proof. reflexivity. Qed.

Example includes_finds_multipart :
  includes "multipart/form-data" "multipart/form-data; boundary=xyz" = true
  ∧ includes "multipart/form-data" "application/json" = false.
Proof. split; reflexivity. Qed.

End PatternSamples.

(** ** What every run of the handler keeps *)
Section HandlerInvariants.
Import Edge Http.

(** Split the handler itself along the branches it takes. *)
Ltac handler_cases :=
  unfold handler; rewrite try_block_paths; cbv zeta;
  repeat match goal with
         | |- context [match ?x with _ => _ end] =>
             lazymatch x with
             | context [match _ with _ => _ end] => fail
             | _ => destruct x eqn:?
             end
         end.

Lemma json_response_cors st v h : h ∈ corsHeaders -> h ∈ headers (json_response st v).
Proof. intros Hh. unfold json_response. cbn [headers]. apply elem_of_app. now left. Qed.

(** X12. Every response carries the two CORS headers, and its status is 200,
    400 or 500; a 400 response is sent before any upstream call. *)
Theorem responses_are_cors_200_400_500 (w : World) (req : Request) :
  (∀ h, h ∈ corsHeaders -> h ∈ headers (handler w req).1)
  ∧ (status (handler w req).1 = 200%nat
     ∨ (status (handler w req).1 = 400%nat ∧ (handler w req).2 = [])
     ∨ status (handler w req).1 = 500%nat).
Proof.
  handler_cases; cbn [fst snd];
    (split; [intros h Hh; first [exact Hh|now apply json_response_cors]|]);
    simpl; auto.
Qed.


End HandlerInvariants.

(** ** Sanitized results, once more *)

(** Split a fact about the handler along the branches it takes. *)
Ltac handler_paths H :=
  unfold Edge.handler in H; rewrite try_block_paths in H; cbv zeta in H;
  repeat match type of H with
         | context [match ?x with _ => _ end] =>
             lazymatch x with
             | context [match _ with _ => _ end] => fail
             | _ => destruct x eqn:?
             end
         end.

(** Read one entry of a log that is written out. *)
Ltac log_entry H :=
  repeat (apply elem_of_cons in H as [H|H]; [try discriminate H|]);
  try (apply elem_of_nil in H; contradiction).

Section ResultInvariants.
Import Edge Http.

Lemma clean_item_object_lookup (o : object) (k : string) :
  foldl keep_micronutrient (typed_copies (VObject o)) (entries (VObject o)) !! k
  = match o !! k with
    | Some v =>
        if (if bool_decide (k ∈ KNOWN_KEYS) then Spec.declared_type k v
            else Spec.is_number v && RegExp.test micronutrient_re k)%bool
        then Some v else None
    | None => None
    end.
Proof.
  destruct (decide (k ∈ KNOWN_KEYS)) as [Hin|Hout].
  - rewrite keep_micronutrient_known, typed_copies_lookup by assumption.
    rewrite (bool_decide_eq_true_2 _ Hin). reflexivity.
  - rewrite (bool_decide_eq_false_2 _ Hout).
    change (entries (VObject o)) with (map_to_list o).
    rewrite keep_micronutrient_lookup by apply NoDup_fst_map_to_list.
    rewrite list_to_map_to_list, typed_copies_unknown by assumption.
    rewrite (bool_decide_eq_false_2 _ Hout).
    destruct (o !! k) as [v|]; [|reflexivity].
    destruct v; reflexivity.
Qed.

(** A cleaned item is a fixed point of cleaning. *)
Lemma clean_item_fixed item cleaned :
  clean_item item = Ok cleaned -> clean_item (VObject cleaned) = Ok cleaned.
Proof.
  intros Hc. unfold clean_item at 1. f_equal. apply map_eq. intros k.
  rewrite clean_item_object_lookup.
  destruct (cleaned !! k) as [v|] eqn:Hl; [|reflexivity].
  destruct (clean_item_lookup _ _ _ _ Hc Hl) as [(Hk & _ & Ht)|(Hk & Hn & Hr)].
  - now rewrite (bool_decide_eq_true_2 _ Hk), Ht.
  - now rewrite (bool_decide_eq_false_2 _ Hk), Hn, Hr.
Qed.

Lemma map_outcome_fixed {A B} (f : A -> outcome B) (g : B -> A) (ys : list B) :
  Forall (fun y => f (g y) = Ok y) ys -> map_outcome f (g <$> ys) = Ok ys.
Proof.
  induction 1 as [|y ys Hy _ IH]; [reflexivity|].
  rewrite fmap_cons. simpl. now rewrite Hy, IH.
Qed.

Lemma result_Ok_inv parsed res :
  result parsed = Ok res ->
  ∃ items : list object,
    res = VObject {[ "items" := VArray (VObject <$> items) ]}
    ∧ Forall (fun item => ∃ x, clean_item x = Ok item) items.
Proof.
  unfold result. destruct (result_items parsed) as [items|e] eqn:E; [|discriminate].
  intros H. injection H as <-. exists items. split; [reflexivity|].
  apply Forall_forall. intros item Hin. eapply result_items_cleaned; eassumption.
Qed.

(** X14. Sanitizing is idempotent: a result the step produced is returned
    unchanged when it is sanitized again. *)
Theorem sanitize_idempotent (parsed res : value) :
  result parsed = Ok res -> result res = Ok res.
Proof.
  intros H. apply result_Ok_inv in H as (items & -> & Hitems).
  unfold result, result_items. simpl. rewrite lookup_singleton_eq.
  rewrite (map_outcome_fixed clean_item VObject items); [reflexivity|].
  eapply Forall_impl; [exact Hitems|]. intros item [x Hx].
  eapply clean_item_fixed; eassumption.
Qed.

Lemma sanitize_idempotent_witness : result Sample.toast_result = Ok Sample.toast_result.
Proof.
  apply (sanitize_idempotent Sample.toast_parsed Sample.toast_result).
  vm_compute. reflexivity.
Defined.

(** X15. A status-200 answer to a request other than a preflight comes only
    after both upstream calls returned, and the value the handler hands to
    [JSON.stringify] for its body is an object with the single field
    [items], an array of objects each field of which is a known key of its
    declared type or a numeric field under a pattern key. (This is the value
    before serialisation: the serialiser is the platform's, and writes a
    number that is not finite as null.) *)
Theorem success_carries_sanitized_items (w : World) (req : Request) :
  method req ≠ "OPTIONS" -> status (handler w req).1 = 200%nat ->
  (∃ items : list object,
     body (handler w req).1
     = JSON_stringify (VObject {[ "items" := VArray (VObject <$> items) ]})
     ∧ ∀ item k v, item ∈ items -> item !! k = Some v -> Spec.field_ok k v)
  ∧ ∃ trq t crq c,
      (handler w req).2 = [ CallTranscription trq (Ok t); CallChat crq (Ok c) ].
Proof.
  intros Hm Hs. destruct (handler w req) as [resp log] eqn:H. cbn [fst snd] in *.
  handler_paths H; injection H as <- <-; try discriminate Hs;
    try (exfalso; apply Hm; eapply bool_decide_eq_true; eassumption).
  match goal with
  | E : result _ = Ok _ |- _ => apply result_Ok_inv in E as (items & -> & Hitems)
  end.
  split; [|eauto 6].
  exists items. split; [reflexivity|].
  intros item k v Hin Hl.
  rewrite Forall_forall in Hitems. destruct (Hitems _ Hin) as [x Hx].
  destruct (clean_item_lookup _ _ _ _ Hx Hl) as [(Hk & _ & Ht)|(_ & Hn & Hr)];
    [left|right]; auto.
Qed.

Lemma success_carries_sanitized_items_witness :
  (∃ items : list object,
     body (handler (Sample.configured "toast" (fun _ => Some Sample.toast_parsed))
             Sample.upload).1
     = JSON_stringify (VObject {[ "items" := VArray (VObject <$> items) ]})
     ∧ ∀ item k v, item ∈ items -> item !! k = Some v -> Spec.field_ok k v)
  ∧ ∃ trq t crq c,
      (handler (Sample.configured "toast" (fun _ => Some Sample.toast_parsed))
         Sample.upload).2
      = [ CallTranscription trq (Ok t); CallChat crq (Ok c) ].
Proof.
  apply (success_carries_sanitized_items
           (Sample.configured "toast" (fun _ => Some Sample.toast_parsed)) Sample.upload).
  - vm_compute. discriminate.
  - vm_compute. reflexivity.
Defined.

(** X11. When both upstream calls returned but building the result throws,
    the request ends in a 500 response carrying the thrown message: nothing
    of the structuring output is returned. *)
Theorem sanitize_fault_is_server_error
    (w : World) (req : Request) (rq : ChatRequest) (c : ChatCompletion) (e : exn) :
  CallChat rq (Ok c) ∈ (handler w req).2 ->
  result (parse_or_empty w (raw_of c)) = Throw e ->
  (handler w req).1
  = json_response 500 (VObject {[ "error" := VString (message_of e) ]}).
Proof.
  intros Hin He. destruct (handler w req) as [resp log] eqn:H. cbn [fst snd] in *.
  handler_paths H; injection H as <- <-; log_entry Hin;
    injection Hin as -> ->; congruence.
Qed.

Lemma sanitize_fault_is_server_error_witness :
  (handler (Sample.configured "null" (fun _ => Some VNull)) Sample.upload).1
  = json_response 500
      (VObject {[ "error" := VString (message_of (Error (null_read "items"))) ]}).
Proof.
  apply (sanitize_fault_is_server_error
           (Sample.configured "null" (fun _ => Some VNull)) Sample.upload
           (chat_request "two eggs")
           {| choices := Some [ {| message := Some {| content := Some "null" |} |} ] |}).
  - vm_compute. apply list_elem_of_further, list_elem_of_here.
  - vm_compute. reflexivity.
Defined.

Lemma raw_of_without_content c :
  Shapes.without_content c -> raw_of c = Shapes.empty_items_text.
Proof. destruct 1; reflexivity. Qed.

(** X17. When the chat call returns a completion with no usable content, the
    handler parses its own fallback text; with a parser that reads that text
    as the empty item list, the response is 200 with [{ items: [] }]. *)
Theorem empty_completion_gives_empty_items
    (w : World) (req : Request) (rq : ChatRequest) (c : ChatCompletion) :
  CallChat rq (Ok c) ∈ (handler w req).2 ->
  Shapes.without_content c ->
  JSON_parse w Shapes.empty_items_text = Some empty_result ->
  (handler w req).1 = json_response 200 empty_result.
Proof.
  intros Hin Hc Hp. apply raw_of_without_content in Hc.
  destruct (handler w req) as [resp log] eqn:H. cbn [fst snd] in *.
  handler_paths H; injection H as <- <-; log_entry Hin;
    injection Hin as -> ->;
    match goal with
    | E : result (parse_or_empty _ _) = _ |- _ =>
        unfold parse_or_empty in E; rewrite Hc, Hp, result_empty in E
    end; congruence.
Qed.

End ResultInvariants.

Lemma empty_completion_gives_empty_items_witness :
  (Edge.handler (Sample.configured "" (fun _ => Some Edge.empty_result)) Sample.upload).1
  = Edge.json_response 200 Edge.empty_result.
Proof.
  apply (empty_completion_gives_empty_items
           (Sample.configured "" (fun _ => Some Edge.empty_result)) Sample.upload
           (Edge.chat_request "two eggs")
           {| Edge.choices :=
                Some [ {| Edge.message := Some {| Edge.content := Some "" |} |} ] |}).
  - vm_compute. apply list_elem_of_further, list_elem_of_here.
  - apply Shapes.EmptyContent.
  - reflexivity.
Defined.

(** ** From the edge function to the recording modal *)
Section RecordingTheory.
Import Edge Recording.

Lemma handler_status_cases w req :
  status (handler w req).1 = 200%nat
  ∨ status (handler w req).1 = 400%nat
  ∨ status (handler w req).1 = 500%nat.
Proof.
  unfold handler; rewrite try_block_paths; cbv zeta;
  repeat match goal with
         | |- context [match ?x with _ => _ end] =>
             lazymatch x with
             | context [match _ with _ => _ end] => fail
             | _ => destruct x eqn:?
             end
         end; simpl; auto.
Qed.

(** The dashboard is handed a result only on this path. *)
Lemma fetch_result_Ok p result :
  fetch_result p = Ok result ->
  truthy result = true ∧ has_items_array result = true
  ∧ ∃ token resp,
      getSession p = Ok token
      ∧ fetch p (match token with
                 | Some t => if bool_decide (t = "") then "" else "Bearer " ++ t
                 | None => ""
                 end) = Ok resp
      ∧ ok resp = true ∧ resp_json resp = Ok result.
Proof.
  unfold fetch_result. destruct (getSession p) as [token|e]; [|discriminate].
  destruct (fetch p _) as [resp|e] eqn:Ef; [|discriminate].
  destruct (ok resp) eqn:Eok; simpl.
  - destruct (resp_json resp) as [r|e] eqn:Ej; [|discriminate].
    destruct (truthy r) eqn:Et; simpl; [|discriminate].
    destruct (has_items_array r) eqn:Ea; simpl; [|discriminate].
    intros H. injection H as <-. repeat split; auto. exists token, resp. auto.
  - destruct (resp_text resp); discriminate.
Qed.

(** X18. [processAudio] either hands the dashboard a result, switches
    processing off and closes, or shows the error toast and switches
    processing off. The result handed over always came from a response with
    the [ok] flag whose JSON body is truthy and has an array under [items];
    processing is never switched on. *)
Theorem processAudio_outcomes (p : Platform) :
  (∃ result,
     processAudio p = [ OnRecordingComplete result; SetIsProcessing false; OnClose ]
     ∧ truthy result = true ∧ has_items_array result = true
     ∧ ∃ authorization resp,
         fetch p authorization = Ok resp ∧ ok resp = true ∧ resp_json resp = Ok result)
  ∨ processAudio p
    = [ Toast "destructive" "Processing Error"
          "Unable to process your recording. Please try again.";
        SetIsProcessing false ].
Proof.
  unfold processAudio. destruct (fetch_result p) as [result|e] eqn:E; [left|now right].
  apply fetch_result_Ok in E as (Ht & Ha & token & resp & _ & Hf & Hok & Hj).
  exists result. repeat split; eauto.
Qed.

(** X19. Whatever the edge function answers with a status other than 200
    (a rejected request, a missing credential, an upstream or sanitization
    fault), the recording modal shows its error toast and switches processing
    off; the confirmation form is never opened on it. *)
Theorem failed_request_shows_error_toast
    (w : World) (req : Request) (p : Platform)
    (stringify : value -> string) (parse : string -> outcome value) :
  status (handler w req).1 ≠ 200%nat ->
  (∀ authorization, fetch p authorization = Ok (delivered stringify parse (handler w req).1)) ->
  processAudio p
  = [ Toast "destructive" "Processing Error"
        "Unable to process your recording. Please try again.";
      SetIsProcessing false ].
Proof.
  intros Hs Hf. unfold processAudio.
  destruct (fetch_result p) as [result|e] eqn:E; [|reflexivity].
  apply fetch_result_Ok in E as (_ & _ & token & resp & _ & Hr & Hok & _).
  rewrite Hf in Hr. injection Hr as <-. unfold delivered in Hok. cbn [ok] in Hok.
  destruct (handler_status_cases w req) as [H|[H|H]]; [contradiction| |];
    rewrite H in Hok; discriminate Hok.
Qed.

Lemma failed_request_shows_error_toast_witness :
  processAudio
    {| getSession := Ok (Some "token");
       fetch := fun _ =>
         Ok (delivered (fun _ => "") (fun _ => Ok VNull)
               (handler Sample.unconfigured Sample.upload).1) |}
  = [ Toast "destructive" "Processing Error"
        "Unable to process your recording. Please try again.";
      SetIsProcessing false ].
Proof.
  apply (failed_request_shows_error_toast Sample.unconfigured Sample.upload _
           (fun _ => "") (fun _ => Ok VNull)).
  - vm_compute. discriminate.
  - reflexivity.
Defined.

(** X20. When the edge function answers a request other than a preflight
    with status 200 and the browser's body parser gives back the value that
    was serialised, the recording modal accepts it: the dashboard receives
    that value, whose [items] is an array. *)
Theorem successful_request_reaches_form
    (w : World) (req : Request) (p : Platform)
    (stringify : value -> string) (parse : string -> outcome value) (token : option string) :
  method req ≠ "OPTIONS" -> status (handler w req).1 = 200%nat ->
  (∀ v, body (handler w req).1 = JSON_stringify v -> parse (stringify v) = Ok v) ->
  getSession p = Ok token ->
  (∀ authorization, fetch p authorization = Ok (delivered stringify parse (handler w req).1)) ->
  ∃ result items,
    body (handler w req).1 = JSON_stringify result
    ∧ get result "items" = Some (VArray items)
    ∧ processAudio p = [ OnRecordingComplete result; SetIsProcessing false; OnClose ].
Proof.
  intros Hm Hs Hwire Hsess Hf.
  assert (Hbody : ∃ items : list object,
            body (handler w req).1
            = JSON_stringify (VObject {[ "items" := VArray (VObject <$> items) ]})).
  { destruct (handler w req) as [resp log] eqn:H. cbn [fst snd] in *.
    handler_paths H; injection H as <- <-; try discriminate Hs;
      try (exfalso; apply Hm; eapply bool_decide_eq_true; eassumption).
    match goal with
    | E : result _ = Ok _ |- _ => apply result_Ok_inv in E as (items & -> & _)
    end.
    exists items. reflexivity. }
  destruct Hbody as [items Hb].
  exists (VObject {[ "items" := VArray (VObject <$> items) ]}), (VObject <$> items).
  split; [exact Hb|]. split; [apply lookup_singleton_eq|].
  unfold processAudio, fetch_result. rewrite Hsess, Hf.
  unfold delivered. cbn [ok resp_json resp_text]. rewrite Hs, Hb.
  rewrite (Hwire _ Hb). cbn [ok_status Nat.leb andb negb].
  unfold has_items_array. cbn [get]. rewrite lookup_singleton_eq. reflexivity.
Qed.

Lemma successful_request_reaches_form_witness :
  ∃ result items,
    body (handler (Sample.configured "toast" (fun _ => Some Sample.toast_parsed))
            Sample.upload).1 = JSON_stringify result
    ∧ get result "items" = Some (VArray items)
    ∧ processAudio
        {| getSession := Ok None;
           fetch := fun _ =>
             Ok (delivered (fun _ => "body") (fun _ => Ok Sample.toast_result)
                   (handler (Sample.configured "toast" (fun _ => Some Sample.toast_parsed))
                      Sample.upload).1) |}
      = [ OnRecordingComplete result; SetIsProcessing false; OnClose ].
Proof.
  apply (successful_request_reaches_form
           (Sample.configured "toast" (fun _ => Some Sample.toast_parsed)) Sample.upload _
           (fun _ => "body") (fun _ => Ok Sample.toast_result) None).
  - vm_compute. discriminate.
  - vm_compute. reflexivity.
  - intros v Hv. vm_compute in Hv. injection Hv as <-. vm_compute. reflexivity.
  - reflexivity.
  - reflexivity.
Defined.

End RecordingTheory.

(** ** The confirmation modal *)
Section ModalTheory.
Import Confirmation Modal.

Lemma elem_of_map_keys {V} (it : gmap string V) (k : string) :
  k ∈ (map_to_list it).*1 <-> is_Some (it !! k).
Proof.
  rewrite list_elem_of_fmap. split.
  - intros ([k' v] & -> & Hin). apply elem_of_map_to_list in Hin. eauto.
  - intros [v Hv]. exists (k, v). split; [reflexivity|]. now apply elem_of_map_to_list.
Qed.

Lemma micronutrientKeys_inner (ks : list string) (keys : gset string) (k : string) :
  k ∈ foldl (fun (keys : gset string) (k : string) =>
               if negb (bool_decide (k ∈ KNOWN_KEYS)) && RegExp.test micronutrient_re k
               then {[ k ]} ∪ keys else keys) keys ks
  <-> k ∈ keys ∨ (k ∈ ks ∧ (k ∉ KNOWN_KEYS) ∧ RegExp.test micronutrient_re k = true).
Proof.
  revert keys. induction ks as [|k0 ks IH]; intros keys; simpl.
  - split; [now left|]. intros [H|[H _]]; [assumption|inversion H].
  - rewrite IH. clear IH.
    destruct (negb (bool_decide (k0 ∈ KNOWN_KEYS)) && RegExp.test micronutrient_re k0) eqn:E.
    + apply andb_true_iff in E as [E1 E2].
      apply negb_true_iff, bool_decide_eq_false in E1.
      rewrite elem_of_union, elem_of_singleton, elem_of_cons. split.
      * intros [[->|H]|H]; auto. right. tauto.
      * intros [H|[[->|H] Hc]]; auto.
    + rewrite elem_of_cons. split; [tauto|].
      intros [H|[[->|H] [Hk Ht]]]; auto.
      apply andb_false_iff in E as [E|E]; [|congruence].
      apply negb_false_iff, bool_decide_eq_true in E. contradiction.
Qed.

Lemma micronutrientKeys_outer {V} (l : list (gmap string V)) (keys : gset string) (k : string) :
  k ∈ foldl (fun keys it =>
               foldl (fun (keys : gset string) (k : string) =>
                        if negb (bool_decide (k ∈ KNOWN_KEYS))
                           && RegExp.test micronutrient_re k
                        then {[ k ]} ∪ keys else keys)
                     keys (map_to_list it).*1) keys l
  <-> k ∈ keys
      ∨ ∃ it, it ∈ l ∧ is_Some (it !! k) ∧ (k ∉ KNOWN_KEYS)
              ∧ RegExp.test micronutrient_re k = true.
Proof.
  revert keys. induction l as [|it l IH]; intros keys; simpl.
  - split; [now left|]. intros [H|(it & H & _)]; [assumption|inversion H].
  - rewrite IH, micronutrientKeys_inner, elem_of_map_keys. split.
    + intros [[H|(Hs & Hk & Ht)]|(it' & Hin & H)]; auto.
      * right. exists it. split; [left|]; auto.
      * right. exists it'. split; [now right|]; auto.
    + intros [H|(it' & Hin & Hs & Hk & Ht)]; auto.
      apply elem_of_cons in Hin as [->|Hin]; [left; right; auto|].
      right. exists it'. auto.
Qed.

(** X21. The micronutrient columns of the form are exactly the keys, outside
    the seven known ones, that some item carries and that match the
    pattern, whatever the values under them. *)
Theorem micronutrientKeys_spec {V} (editItems : list (gmap string V)) (k : string) :
  k ∈ micronutrientKeys editItems
  <-> ∃ it, it ∈ editItems ∧ is_Some (it !! k) ∧ (k ∉ KNOWN_KEYS)
            ∧ RegExp.test micronutrient_re k = true.
Proof.
  unfold micronutrientKeys. rewrite micronutrientKeys_outer. split.
  - intros [H|H]; [|assumption]. now apply not_elem_of_empty in H.
  - now right.
Qed.

Lemma fmap_VObject_inj (l1 l2 : list JS.object) : VObject <$> l1 = VObject <$> l2 -> l1 = l2.
Proof.
  revert l2. induction l1 as [|x l1 IH]; intros [|y l2] H; try discriminate H.
  - reflexivity.
  - rewrite !fmap_cons in H.
    assert (Hx : x = y).
    { apply (f_equal (fun l => match l with VObject o :: _ => o | _ => ∅ end)) in H.
      exact H. }
    assert (Hl : VObject <$> l1 = VObject <$> l2).
    { apply (f_equal (fun l => match l with _ :: l' => l' | [] => [] end)) in H. exact H. }
    now rewrite Hx, (IH _ Hl).
Qed.

(** X22. Every field the edge function returns outside the seven known keys
    gets a column in the form: on the items of a sanitized result, the
    micronutrient columns are all their keys but the known ones. *)
Theorem sanitized_micronutrients_all_listed
    (parsed : JS.value) (items : list JS.object) (k : string) :
  Edge.result parsed = Ok (VObject {[ "items" := VArray (VObject <$> items) ]}) ->
  k ∈ micronutrientKeys items
  <-> ∃ it, it ∈ items ∧ is_Some (it !! k) ∧ (k ∉ Edge.KNOWN_KEYS).
Proof.
  intros H. apply result_Ok_inv in H as (items' & Heq & Hitems).
  assert (items' = items) as ->.
  { apply (f_equal (fun v => match v with VObject o => o !! "items" | _ => None end)) in Heq.
    cbv beta iota in Heq. rewrite !lookup_singleton_eq in Heq.
    apply (f_equal (fun v => match v with Some (VArray l) => l | _ => [] end)) in Heq.
    cbv beta iota in Heq.
    symmetry. now apply fmap_VObject_inj. }
  rewrite micronutrientKeys_spec. split.
  - intros (it & Hin & Hs & Hk & _). eauto.
  - intros (it & Hin & [v Hv] & Hk). exists it. repeat split; eauto.
    rewrite Forall_forall in Hitems. destruct (Hitems _ Hin) as [x Hx].
    destruct (clean_item_lookup _ _ _ _ Hx Hv) as [(Hk' & _)|(_ & _ & Ht)];
      [contradiction|exact Ht].
Qed.

Lemma sanitized_micronutrients_all_listed_witness :
  "k_mg" ∈ micronutrientKeys [ Sample.toast_cleaned ]
  <-> ∃ it, it ∈ [ Sample.toast_cleaned ] ∧ is_Some (it !! "k_mg")
            ∧ ("k_mg" ∉ Edge.KNOWN_KEYS).
Proof.
  apply (sanitized_micronutrients_all_listed Sample.toast_parsed [ Sample.toast_cleaned ] "k_mg").
  vm_compute. reflexivity.
Defined.

Lemma filter_index_from {A} (l : list A) (index start : nat) :
  filter_index (fun _ i => negb (i =? index)%nat) l start
  = if (index <? start)%nat then l else delete (index - start)%nat l.
Proof.
  revert start. induction l as [|x l IH]; intros start; simpl.
  - now destruct (index <? start)%nat.
  - rewrite IH. destruct (Nat.eqb_spec start index) as [->|Hne]; simpl.
    + rewrite Nat.sub_diag.
      destruct (Nat.ltb_spec index (S index)); [|lia].
      destruct (Nat.ltb_spec index index); [lia|]. reflexivity.
    + destruct (Nat.ltb_spec index start), (Nat.ltb_spec index (S start)); try lia.
      * reflexivity.
      * replace (index - start)%nat with (S (index - S start)) by lia. reflexivity.
Qed.

(** X23. [removeFoodItem] deletes the item at the index and nothing else:
    the other items keep their order, and an index past the end changes
    nothing. *)
Theorem removeFoodItem_deletes (editItems : list TokenItem) (index : nat) :
  removeFoodItem editItems index = delete index editItems
  ∧ (∀ i, (i < index)%nat -> removeFoodItem editItems index !! i = editItems !! i)
  ∧ (∀ i, (index <= i)%nat -> removeFoodItem editItems index !! i = editItems !! S i)
  ∧ ((length editItems <= index)%nat -> removeFoodItem editItems index = editItems).
Proof.
  assert (H : removeFoodItem editItems index = delete index editItems).
  { unfold removeFoodItem. rewrite filter_index_from. simpl. now rewrite Nat.sub_0_r. }
  rewrite H. repeat split.
  - intros i Hi. now apply list_lookup_delete_lt.
  - intros i Hi. now apply list_lookup_delete_ge.
  - intros Hlen. clear H. revert index Hlen. induction editItems as [|x l IH]; intros index Hlen.
    + now destruct index.
    + destruct index as [|index]; simpl in *; [lia|]. f_equal. apply IH. lia.
Qed.

(** X24. An index within the array makes [updateItem] set that field of
    that item and nothing else: the copy has no hole and the same length,
    the other items are as before, and the item at the index is the old one
    with the field set. *)
Theorem updateItem_sets_one_field
    (editItems : list TokenItem) (index : nat) (field : string) (value : Confirmation.field) :
  (index < length editItems)%nat ->
  length (updateItem editItems index field value) = length editItems
  ∧ (∀ i, i ≠ index -> updateItem editItems index field value !! i = Some <$> editItems !! i)
  ∧ ∃ it, editItems !! index = Some it
          ∧ updateItem editItems index field value !! index = Some (Some (<[ field := value ]> it))
          ∧ <[ field := value ]> it !! field = Some value
          ∧ ∀ f, f ≠ field -> <[ field := value ]> it !! f = it !! f.
Proof.
  intros Hlt. unfold updateItem.
  destruct (Nat.ltb_spec index (length editItems)) as [_|]; [|lia].
  destruct (lookup_lt_is_Some_2 editItems index Hlt) as [it Hit].
  rewrite Hit. simpl. repeat split.
  - now rewrite length_insert, length_fmap.
  - intros i Hi. rewrite list_lookup_insert_ne by auto. apply list_lookup_fmap.
  - exists it. repeat split.
    + apply list_lookup_insert_eq. now rewrite length_fmap.
    + apply lookup_insert_eq.
    + intros f Hf. now apply lookup_insert_ne.
Qed.

Lemma updateItem_sets_one_field_witness :
  length (updateItem [ blank_item ] 0 "n" (FString "toast")) = length [ blank_item ]
  ∧ (∀ i, i ≠ 0%nat ->
       updateItem [ blank_item ] 0 "n" (FString "toast") !! i = Some <$> [ blank_item ] !! i)
  ∧ ∃ it, [ blank_item ] !! 0%nat = Some it
          ∧ updateItem [ blank_item ] 0 "n" (FString "toast") !! 0%nat
            = Some (Some (<[ "n" := FString "toast" ]> it))
          ∧ <[ "n" := FString "toast" ]> it !! "n" = Some (FString "toast")
          ∧ ∀ f, f ≠ "n" -> <[ "n" := FString "toast" ]> it !! f = it !! f.
Proof.
  apply (updateItem_sets_one_field [ blank_item ] 0 "n" (FString "toast")). simpl. lia.
Defined.

End ModalTheory.

(** ** Confirming a meal *)
Section ConfirmTheory.
Import Confirmation Modal.
Variable StringToNumber : string -> float.
Variable NumberToString : float -> string.
Variable trim : string -> string.
Variable insert : MealInsert -> outcome (option string).



Lemma handleConfirm_valid (id : string) (editItems : list TokenItem) :
  invalid editItems = false ->
  ∃ row,
    row = {| user_id := id;
             meal_name := join_names NumberToString trim editItems;
             description := join_names NumberToString trim editItems;
             row_total_calories := total_calories (computeTotals StringToNumber editItems);
             row_protein := protein (computeTotals StringToNumber editItems);
             row_carbs := carbs (computeTotals StringToNumber editItems);
             row_fat := fat (computeTotals StringToNumber editItems);
             row_fiber := fiber (computeTotals StringToNumber editItems);
             row_micronutrients := micronutrients (computeTotals StringToNumber editItems) |}
    ∧ handleConfirm StringToNumber NumberToString trim insert (Some id) editItems
      = [ SetLoading true; Insert row;
          match insert row with
          | Ok _ => OnConfirm editItems (computeTotals StringToNumber editItems)
          | Throw _ =>
              Toast "destructive" "Recording Error"
                "Unable to save your meal. Please try again."
          end;
          SetLoading false ].
Proof.
  intros Hv. eexists. split; [reflexivity|].
  unfold handleConfirm. rewrite Hv. cbv zeta.
  destruct (insert _); reflexivity.
Qed.

End ConfirmTheory.


(** X26. An insert the store rejects is not fatal: when every item has a name
    and a quantity and the insert returns, with or without an error, the
    parent is called with the items and their totals, exactly as after a
    successful insert. *)
Theorem insert_error_is_not_fatal
    (StringToNumber : string -> float) (NumberToString : float -> string)
    (trim : string -> string)
    (insert : Modal.MealInsert -> outcome (option string))
    (id : string) (editItems : list Confirmation.TokenItem) :
  Modal.invalid editItems = false ->
  (∀ row, ∃ error, insert row = Ok error) ->
  ∃ row,
    Modal.handleConfirm StringToNumber NumberToString trim insert (Some id) editItems
    = [ Modal.SetLoading true; Modal.Insert row;
        Modal.OnConfirm editItems (Confirmation.computeTotals StringToNumber editItems);
        Modal.SetLoading false ]
    ∧ Modal.handleConfirm StringToNumber NumberToString trim (fun _ => Ok None) (Some id)
        editItems
      = Modal.handleConfirm StringToNumber NumberToString trim insert (Some id) editItems.
Proof.
  intros Hv Hins.
  destruct (handleConfirm_valid StringToNumber NumberToString trim insert id editItems Hv)
    as (row & Hrow & H).
  destruct (handleConfirm_valid StringToNumber NumberToString trim (fun _ => Ok None)
              id editItems Hv) as (row' & Hrow' & H').
  exists row. rewrite H, H'. destruct (Hins row) as [error ->].
  split; [reflexivity|]. now rewrite Hrow, Hrow'.
Qed.

Lemma insert_error_is_not_fatal_witness :
  ∃ row,
    Modal.handleConfirm (fun _ => nan) (fun _ => "") (fun s => s)
      (fun _ => Ok (Some "numeric field overflow")) (Some "user-1")
      [ <[ "qty" := Confirmation.FString "2 slices" ]>
          (<[ "n" := Confirmation.FString "toast" ]> ∅) ]
    = [ Modal.SetLoading true; Modal.Insert row;
        Modal.OnConfirm
          [ <[ "qty" := Confirmation.FString "2 slices" ]>
              (<[ "n" := Confirmation.FString "toast" ]> ∅) ]
          (Confirmation.computeTotals (fun _ => nan)
             [ <[ "qty" := Confirmation.FString "2 slices" ]>
                 (<[ "n" := Confirmation.FString "toast" ]> ∅) ]);
        Modal.SetLoading false ]
    ∧ Modal.handleConfirm (fun _ => nan) (fun _ => "") (fun s => s)
        (fun _ => Ok None) (Some "user-1")
        [ <[ "qty" := Confirmation.FString "2 slices" ]>
            (<[ "n" := Confirmation.FString "toast" ]> ∅) ]
      = Modal.handleConfirm (fun _ => nan) (fun _ => "") (fun s => s)
          (fun _ => Ok (Some "numeric field overflow")) (Some "user-1")
          [ <[ "qty" := Confirmation.FString "2 slices" ]>
              (<[ "n" := Confirmation.FString "toast" ]> ∅) ].
Proof.
  apply (insert_error_is_not_fatal (fun _ => nan) (fun _ => "") (fun s => s)
           (fun _ => Ok (Some "numeric field overflow")) "user-1").
  - vm_compute. reflexivity.
  - intros row. eexists. reflexivity.
Defined.


(** ** Micronutrient totals *)
Section MicronutrientTotals.
Import Confirmation.
Variable StringToNumber : string -> float.

Lemma add_micronutrient_keys (es : list (string * field)) (m : gmap string float) (k : string) :
  is_Some (foldl add_micronutrient m es !! k)
  <-> is_Some (m !! k) ∨ ((k ∉ KNOWN_KEYS) ∧ ∃ x, (k, FNumber x) ∈ es).
Proof.
  revert m. induction es as [|[k' v'] es IH]; intros m.
  - simpl. split; [now left|]. intros [H|[_ [x H]]]; [assumption|inversion H].
  - change (foldl add_micronutrient m ((k', v') :: es))
      with (foldl add_micronutrient (add_micronutrient m (k', v')) es).
    rewrite IH. clear IH. unfold add_micronutrient at 1.
    destruct v' as [s|x'].
    + split.
      * intros [H|(Hk & x & Hin)]; [now left|]. right. split; [assumption|].
        exists x. now right.
      * intros [H|(Hk & x & Hin)]; [now left|].
        apply elem_of_cons in Hin as [Hin|Hin]; [discriminate Hin|]. right. eauto.
    + destruct (decide (k' ∈ KNOWN_KEYS)) as [Hin'|Hout'].
      * rewrite (bool_decide_eq_true_2 _ Hin'). simpl. split.
        -- intros [H|(Hk & x & Hin)]; [now left|]. right. split; [assumption|].
           exists x. now right.
        -- intros [H|(Hk & x & Hin)]; [now left|].
           apply elem_of_cons in Hin as [Hin|Hin]; [|right; eauto].
           injection Hin as -> ->. contradiction.
      * rewrite (bool_decide_eq_false_2 _ Hout'). simpl. split.
        -- intros [H|(Hk & x & Hin)].
           ++ destruct (decide (k' = k)) as [->|Hne].
              ** right. split; [assumption|]. exists x'. left.
              ** rewrite lookup_insert_ne in H by assumption. now left.
           ++ right. split; [assumption|]. exists x. now right.
        -- intros [H|(Hk & x & Hin)].
           ++ left. destruct (decide (k' = k)) as [->|Hne].
              ** rewrite lookup_insert_eq. eauto.
              ** now rewrite lookup_insert_ne.
           ++ apply elem_of_cons in Hin as [Hin|Hin]; [|right; eauto].
              injection Hin as -> ->. left. rewrite lookup_insert_eq. eauto.
Qed.

Lemma add_item_micronutrient_keys (list : list TokenItem) (acc : Totals) (k : string) :
  is_Some (micronutrients (foldl (add_item StringToNumber) acc list) !! k)
  <-> is_Some (micronutrients acc !! k)
      ∨ ((k ∉ KNOWN_KEYS) ∧ ∃ it x, it ∈ list ∧ it !! k = Some (FNumber x)).
Proof.
  revert acc. induction list as [|it list IH]; intros acc.
  - simpl. split; [now left|]. intros [H|(_ & it & x & H & _)]; [assumption|inversion H].
  - change (foldl (add_item StringToNumber) acc (it :: list))
      with (foldl (add_item StringToNumber) (add_item StringToNumber acc it) list).
    rewrite IH. clear IH. cbn [add_item micronutrients].
    rewrite add_micronutrient_keys. split.
    + intros [[H|(Hk & x & Hin)]|(Hk & it' & x & Hin & Hl)].
      * now left.
      * right. split; [assumption|]. exists it, x. split; [left|].
        now apply elem_of_map_to_list in Hin.
      * right. split; [assumption|]. exists it', x. split; [now right|assumption].
    + intros [H|(Hk & it' & x & Hin & Hl)]; [now left; left|].
      apply elem_of_cons in Hin as [->|Hin].
      * left. right. split; [assumption|]. exists x. now apply elem_of_map_to_list.
      * right. eauto.
Qed.

End MicronutrientTotals.

(** X28. For a key that names no member of [Object.prototype] (where the
    totals' plain object reads and writes its own fields only), the
    micronutrients of the meal totals hold the key exactly when it is
    outside the seven known ones and some item carries a number under it: a
    macro key or a text field never appears among them, and no such numeric
    micronutrient of an item is lost. *)
Theorem computeTotals_micronutrient_keys
    (StringToNumber : string -> float) (list : list Confirmation.TokenItem) (k : string) :
  k ∉ Builtins.Object_prototype_names ->
  is_Some (Confirmation.micronutrients (Confirmation.computeTotals StringToNumber list) !! k)
  <-> (k ∉ Confirmation.KNOWN_KEYS)
      ∧ ∃ it x, it ∈ list ∧ it !! k = Some (Confirmation.FNumber x).
Proof.
  intros _. unfold Confirmation.computeTotals. rewrite add_item_micronutrient_keys. split.
  - intros [H|H]; [|assumption]. cbn in H. rewrite lookup_empty in H. now destruct H.
  - now right.
Qed.

Lemma computeTotals_micronutrient_keys_witness :
  is_Some (Confirmation.micronutrients
             (Confirmation.computeTotals (fun _ => nan)
                [ {[ "k_mg" := Confirmation.FNumber 200 ]} ]) !! "k_mg")
  <-> ("k_mg" ∉ Confirmation.KNOWN_KEYS)
      ∧ ∃ it x, it ∈ [ ({[ "k_mg" := Confirmation.FNumber 200 ]} : Confirmation.TokenItem) ]
                ∧ it !! "k_mg" = Some (Confirmation.FNumber x).
Proof.
  apply (computeTotals_micronutrient_keys (fun _ => nan)
           [ {[ "k_mg" := Confirmation.FNumber 200 ]} ] "k_mg").
  apply (bool_decide_eq_false_1 ("k_mg" ∈ Builtins.Object_prototype_names)).
  vm_compute. reflexivity.
Defined.

(** ** The meal card on validated keys *)
Section MealCardTheory.
Import MealCard.

Lemma spaced_app (s t : string) : spaced (s ++ t) = spaced s ++ spaced t.
Proof. induction s as [|ch s IH]; simpl; [reflexivity|now rewrite IH]. Qed.

Lemma spaced_no_underscore (s : string) :
  Forall (fun ch => ch ≠ "_"%char) (list_ascii_of_string s) -> spaced s = s.
Proof.
  induction s as [|ch s IH]; simpl; intros H; [reflexivity|].
  inversion H as [|? ? Hch Hs]; subst.
  rewrite (bool_decide_eq_false_2 _ Hch), IH by assumption. reflexivity.
Qed.

Lemma letter_not_underscore ch : Spec.is_letter ch = true -> ch ≠ "_"%char.
Proof. intros H ->. discriminate H. Qed.

Lemma canonical_no_underscore (l : list ascii) :
  Forall (fun ch => ch ≠ "_"%char) (List.map (RegExp.Canonicalize true) l) ->
  Forall (fun ch => ch ≠ "_"%char) l.
Proof.
  induction l as [|ch l IH]; simpl; intros H; [constructor|].
  inversion H as [|? ? Hch Hl]; subst. constructor; [|auto].
  intros ->. now apply Hch.
Qed.

Lemma unit_no_underscore (unit u : string) :
  u ∈ Spec.UNITS -> Spec.upper unit = Spec.upper u ->
  Forall (fun ch => ch ≠ "_"%char) (list_ascii_of_string unit).
Proof.
  intros Hu Heq. apply canonical_no_underscore.
  unfold Spec.upper in Heq. rewrite Heq. unfold Spec.UNITS in Hu.
  repeat (apply elem_of_cons in Hu as [->|Hu];
          [vm_compute; repeat constructor; discriminate|]).
  inversion Hu.
Qed.

(** X29. A key the edge function validated as a micronutrient is shown by
    the meal card with its underscore turned into a space, and its value
    with no unit suffix: [getUnit] knows none of these keys. *)
Theorem validated_keys_get_no_unit (k : string) :
  RegExp.test Edge.micronutrient_re k = true ->
  getUnit k = ""
  ∧ ∃ abbr unit, k = abbr ++ "_" ++ unit ∧ spaced k = abbr ++ " " ++ unit.
Proof.
  intros Ht. split.
  - unfold getUnit.
    case_bool_decide as Hmg.
    { unfold mgNutrients in Hmg.
      repeat (apply elem_of_cons in Hmg as [->|Hmg]; [vm_compute in Ht; discriminate Ht|]).
      inversion Hmg. }
    case_bool_decide as Hmcg.
    { unfold mcgNutrients in Hmcg.
      repeat (apply elem_of_cons in Hmcg as [->|Hmcg]; [vm_compute in Ht; discriminate Ht|]).
      inversion Hmcg. }
    case_bool_decide as Hk; [subst k; vm_compute in Ht; discriminate Ht|reflexivity].
  - apply micronutrient_re_spec in Ht as (abbr & unit & -> & _ & Hall & u & Hu & Heq).
    exists abbr, unit. split; [reflexivity|].
    rewrite !spaced_app. simpl.
    rewrite (spaced_no_underscore abbr), (spaced_no_underscore unit); [reflexivity| |].
    + eapply unit_no_underscore; eassumption.
    + eapply Forall_impl; [exact Hall|]. intros ch. apply letter_not_underscore.
Qed.

Lemma validated_keys_get_no_unit_witness :
  getUnit "k_mg" = ""
  ∧ ∃ abbr unit, "k_mg" = abbr ++ "_" ++ unit ∧ spaced "k_mg" = abbr ++ " " ++ unit.
Proof. apply (validated_keys_get_no_unit "k_mg"). reflexivity. Defined.

End MealCardTheory.

(** ** Day summaries *)
Section HistoryTheory.
Import History.

Lemma Map_has_get m k : Map_has m k = bool_decide (is_Some (Map_get m k)).
Proof.
  induction m as [|[k' s] m IH]; simpl.
  - reflexivity.
  - destruct (decide (k' = k)) as [Hk|Hk].
    + rewrite !(bool_decide_eq_true_2 (k' = k)) by assumption. reflexivity.
    + rewrite !(bool_decide_eq_false_2 (k' = k)) by assumption. simpl. exact IH.
Qed.

Lemma Map_get_set_new m k s k' :
  Map_get (Map_set_new m k s) k'
  = match Map_get m k' with
    | Some x => Some x
    | None => if bool_decide (k = k') then Some s else None
    end.
Proof.
  unfold Map_set_new. induction m as [|[k0 s0] m IH]; simpl; [reflexivity|].
  destruct (decide (k0 = k')) as [Hk|Hk].
  - now rewrite !(bool_decide_eq_true_2 (k0 = k')).
  - now rewrite !(bool_decide_eq_false_2 (k0 = k')).
Qed.

Lemma Map_get_update f m k k' :
  Map_get (Map_update f m k) k'
  = if bool_decide (k = k') then f <$> Map_get m k else Map_get m k'.
Proof.
  induction m as [|[k0 s0] m IH]; simpl.
  - now destruct (bool_decide (k = k')).
  - destruct (decide (k0 = k)) as [->|Hne].
    + rewrite (bool_decide_eq_true_2 (k = k)) by reflexivity. simpl.
      destruct (decide (k = k')) as [Hk|Hk].
      * now rewrite !(bool_decide_eq_true_2 (k = k')).
      * now rewrite !(bool_decide_eq_false_2 (k = k')).
    + rewrite (bool_decide_eq_false_2 (k0 = k)) by assumption. simpl.
      rewrite IH. destruct (decide (k = k')) as [->|Hne'].
      * rewrite (bool_decide_eq_false_2 (k0 = k')) by assumption.
        now rewrite (bool_decide_eq_true_2 (k' = k')).
      * now rewrite (bool_decide_eq_false_2 (k = k')).
Qed.

Lemma Map_update_keys f m k : (Map_update f m k).*1 = m.*1.
Proof.
  induction m as [|[k0 s0] m IH]; [reflexivity|].
  cbn [Map_update]. destruct (bool_decide (k0 = k)); [reflexivity|].
  rewrite !fmap_cons, IH. reflexivity.
Qed.

Lemma Map_get_keys m k : is_Some (Map_get m k) <-> k ∈ m.*1.
Proof.
  induction m as [|[k0 s0] m IH]; simpl.
  - split; [now intros [x H]|inversion 1].
  - rewrite elem_of_cons. destruct (decide (k0 = k)) as [Hk|Hk].
    + rewrite (bool_decide_eq_true_2 _ Hk). split; eauto.
    + rewrite (bool_decide_eq_false_2 _ Hk), IH.
      split; [now right|]. intros [->|H]; [contradiction|assumption].
Qed.

(** One meal, seen through the map's reads. *)
Lemma group_meal_get m meal k :
  Map_get (group_meal m meal) k
  = if bool_decide (logged_date meal = k) then
      Some (add_meal meal
              (default {| date := logged_date meal; calories := 0; protein := 0;
                          carbs := 0; fat := 0; mealCount := 0 |}
                 (Map_get m k)))
    else Map_get m k.
Proof.
  unfold group_meal. cbv zeta. rewrite Map_get_update.
  case_bool_decide as Hk.
  - subst k. rewrite Map_has_get.
    destruct (Map_get m (logged_date meal)) as [s|] eqn:E.
    + rewrite bool_decide_eq_true_2 by eauto. simpl. now rewrite E.
    + rewrite bool_decide_eq_false_2 by (now intros [x H]). simpl.
      rewrite Map_get_set_new, E.
      now rewrite (bool_decide_eq_true_2 (logged_date meal = logged_date meal)).
  - destruct (negb _); [|reflexivity].
    rewrite Map_get_set_new. destruct (Map_get m k); [reflexivity|].
    now rewrite (bool_decide_eq_false_2 _ Hk).
Qed.

Lemma group_meal_keys m meal :
  (group_meal m meal).*1
  = if Map_has m (logged_date meal) then m.*1 else (m.*1 ++ [ logged_date meal ])%list.
Proof.
  unfold group_meal. cbv zeta. rewrite Map_update_keys.
  destruct (Map_has m (logged_date meal)); simpl; [reflexivity|].
  unfold Map_set_new. now rewrite fmap_app.
Qed.

Lemma grouped_nil : grouped [] [].
Proof.
  repeat split.
  - constructor.
  - inversion 1.
  - intros (meal & H & _). inversion H.
  - discriminate.
  - discriminate.
Qed.

Lemma grouped_snoc meals m meal :
  grouped meals m -> grouped (meals ++ [ meal ]) (group_meal m meal).
Proof.
  intros (Hnd & Hkeys & Hget). repeat split.
  - rewrite group_meal_keys. destruct (Map_has m (logged_date meal)) eqn:Eh; [assumption|].
    apply NoDup_app. repeat split; [assumption| |apply NoDup_singleton].
    intros k Hk Hk'. apply list_elem_of_singleton in Hk'. subst k.
    apply Map_get_keys in Hk. rewrite Map_has_get in Eh.
    now apply bool_decide_eq_false in Eh.
  - rewrite group_meal_keys. intros Hk.
    assert (Hcase : k ∈ m.*1 ∨ k = logged_date meal).
    { destruct (Map_has m (logged_date meal)); [now left|].
      apply elem_of_app in Hk as [Hk|Hk]; [now left|].
      apply list_elem_of_singleton in Hk. now right. }
    destruct Hcase as [Hin| ->].
    + apply Hkeys in Hin as (meal' & Hin & Hd). exists meal'.
      split; [apply elem_of_app; now left|assumption].
    + exists meal. split; [|reflexivity]. apply elem_of_app. right. left.
  - intros (meal' & Hin & Hd). rewrite group_meal_keys.
    apply elem_of_app in Hin as [Hin|Hin].
    + assert (Hk : k ∈ m.*1) by (apply Hkeys; eauto).
      destruct (Map_has m (logged_date meal)); [assumption|].
      apply elem_of_app. now left.
    + apply list_elem_of_singleton in Hin. subst meal' k.
      destruct (Map_has m (logged_date meal)) eqn:Eh.
      * rewrite Map_has_get in Eh. apply bool_decide_eq_true in Eh.
        now apply Map_get_keys.
      * apply elem_of_app. right. left.
  - revert H. rewrite group_meal_get. case_bool_decide as Hk.
    + intros H. injection H as <-. simpl.
      destruct (Map_get m k) as [s0|] eqn:E; simpl; [|assumption].
      now destruct (Hget _ _ E).
    + intros H. now destruct (Hget _ _ H).
  - revert H. unfold on. rewrite group_meal_get, filter_app, length_app.
    case_bool_decide as Hk.
    + intros H. injection H as <-. simpl.
      rewrite filter_cons_True by assumption. simpl.
      destruct (Map_get m k) as [s0|] eqn:E; simpl.
      * destruct (Hget _ _ E) as [_ ->]. reflexivity.
      * destruct (filter _ meals) as [|meal' l] eqn:Ef; [reflexivity|].
        assert (Hin : meal' ∈ filter (fun meal => logged_date meal = k) meals)
          by (rewrite Ef; left).
        apply list_elem_of_filter in Hin as [Hd Hin].
        assert (Hkm : k ∈ m.*1) by (apply Hkeys; eauto).
        apply Map_get_keys in Hkm. rewrite E in Hkm. now destruct Hkm.
    + intros H. rewrite filter_cons_False by assumption. simpl.
      destruct (Hget _ _ H) as [_ ->]. unfold on. lia.
Qed.

Lemma grouped_foldl meals : grouped meals (foldl group_meal [] meals).
Proof.
  induction meals as [|meal meals IH] using rev_ind.
  - apply grouped_nil.
  - rewrite foldl_app. simpl. now apply grouped_snoc.
Qed.

Lemma Map_values_get (m : SummaryMap) (s : DaySummary) :
  NoDup m.*1 -> s ∈ m.*2 -> ∃ k, Map_get m k = Some s.
Proof.
  induction m as [|[k0 s0] m IH]; simpl; intros Hnd Hin; [inversion Hin|].
  apply NoDup_cons in Hnd as [Hfresh Hnd].
  apply elem_of_cons in Hin as [->|Hin].
  - exists k0. now rewrite bool_decide_eq_true_2.
  - destruct (IH Hnd Hin) as [k Hk]. exists k.
    rewrite bool_decide_eq_false_2; [assumption|].
    intros ->. apply Hfresh. apply Map_get_keys. eauto.
Qed.

Lemma find_by_date (m : SummaryMap) (d : string) :
  (∀ k s, Map_get m k = Some s -> date s = k) -> NoDup m.*1 ->
  List.find (fun summary => bool_decide (date summary = d)) m.*2 = Map_get m d.
Proof.
  induction m as [|[k0 s0] m IH]; simpl; intros Hdate Hnd; [reflexivity|].
  apply NoDup_cons in Hnd as [Hfresh Hnd].
  assert (H0 : date s0 = k0).
  { apply Hdate. now rewrite bool_decide_eq_true_2. }
  rewrite H0. case_bool_decide; [reflexivity|].
  apply IH; [|assumption]. intros k s Hk. apply Hdate.
  rewrite bool_decide_eq_false_2; [assumption|].
  intros ->. apply Hfresh. apply Map_get_keys. eauto.
Qed.

Lemma Map_values_dates (m : SummaryMap) :
  (∀ k s, Map_get m k = Some s -> date s = k) -> NoDup m.*1 ->
  date <$> m.*2 = m.*1.
Proof.
  induction m as [|[k0 s0] m IH]; intros Hdate Hnd; [reflexivity|].
  rewrite !fmap_cons in *. cbn [fst snd] in *.
  apply NoDup_cons in Hnd as [Hfresh Hnd]. f_equal.
  - apply Hdate. simpl. now rewrite bool_decide_eq_true_2.
  - apply IH; [|assumption]. intros k s Hk. apply Hdate. simpl.
    rewrite bool_decide_eq_false_2; [assumption|].
    intros ->. apply Hfresh. apply Map_get_keys. eauto.
Qed.

End HistoryTheory.

(** X30. The day summaries group the rows by date: there is exactly one
    summary per date that has a row, none for any other date, and the meal
    count of each summary is the number of rows of its date. Without rows
    ([null] or an empty list) there is no summary. *)
Theorem daySummaries_group_by_date (meals : list History.MealRow) :
  NoDup (History.date <$> History.daySummaries (Some meals))
  ∧ (∀ d, d ∈ History.date <$> History.daySummaries (Some meals)
          <-> ∃ meal, meal ∈ meals ∧ History.logged_date meal = d)
  ∧ (∀ s, s ∈ History.daySummaries (Some meals) ->
       History.mealCount s
       = length (filter (fun meal => History.logged_date meal = History.date s) meals)
       ∧ (1 <= History.mealCount s)%nat)
  ∧ History.daySummaries None = []
  ∧ History.daySummaries (Some []) = [].
Proof.
  unfold History.daySummaries. simpl.
  destruct (grouped_foldl meals) as (Hnd & Hkeys & Hget).
  set (m := foldl History.group_meal [] meals) in *.
  assert (Hdates : History.date <$> m.*2 = m.*1).
  { apply Map_values_dates; [|assumption]. intros k s Hk. now destruct (Hget _ _ Hk). }
  rewrite Hdates. repeat split; try assumption; try (now apply Hkeys).
  - destruct (Map_values_get m s Hnd H) as [k Hk].
    destruct (Hget _ _ Hk) as [-> ->]. reflexivity.
  - destruct (Map_values_get m s Hnd H) as [k Hk].
    destruct (Hget _ _ Hk) as [Hd ->].
    assert (Hin : k ∈ m.*1) by (apply Map_get_keys; eauto).
    apply Hkeys in Hin as (meal & Hin & Hdm).
    assert (Hf : meal ∈ filter (fun meal => History.logged_date meal = k) meals).
    { apply list_elem_of_filter. auto. }
    unfold History.on. destruct (filter _ meals); [inversion Hf|simpl; lia].
Qed.

(** X4. [getDateSummary] looks a [Date] up under the text its
    [toISOString] writes before the first T, that is, under its UTC day:
    it finds a summary exactly when some row has that text as its date, and
    the summary found has that date and, as its meal count, the number of
    rows of that date; [hasDataForDate] answers accordingly. On a [Date]
    whose [toISOString] throws, both throw. *)
Theorem getDateSummary_finds_the_day
    (Date : Type) (toISOString : Date -> outcome string)
    (meals : list History.MealRow) (d : Date) :
  (∀ iso, toISOString d = Ok iso ->
     (History.hasDataForDate Date toISOString (History.daySummaries (Some meals)) d = Ok true
      <-> ∃ meal, meal ∈ meals ∧ History.logged_date meal = History.before_T iso)
     ∧ (∃ b, History.hasDataForDate Date toISOString (History.daySummaries (Some meals)) d
             = Ok b)
     ∧ (∀ s, History.getDateSummary Date toISOString (History.daySummaries (Some meals)) d
             = Ok (Some s) ->
          History.date s = History.before_T iso
          ∧ History.mealCount s
            = length (filter (fun meal => History.logged_date meal = History.before_T iso)
                        meals)))
  ∧ (∀ e, toISOString d = Throw e ->
       History.getDateSummary Date toISOString (History.daySummaries (Some meals)) d = Throw e
       ∧ History.hasDataForDate Date toISOString (History.daySummaries (Some meals)) d
         = Throw e).
Proof.
  split.
  - intros iso Hiso.
    unfold History.hasDataForDate, History.getDateSummary, History.daySummaries.
    rewrite Hiso. cbv zeta. simpl default.
    destruct (grouped_foldl meals) as (Hnd & Hkeys & Hget).
    set (m := foldl History.group_meal [] meals) in *.
    rewrite (find_by_date m (History.before_T iso));
      [|intros k s Hk; now destruct (Hget _ _ Hk)|assumption].
    repeat split.
    + intros H. apply Hkeys, Map_get_keys.
      destruct (History.Map_get m (History.before_T iso)) as [s|]; [eauto|discriminate H].
    + intros H. apply Hkeys, Map_get_keys in H as [s Hs]. now rewrite Hs.
    + destruct (History.Map_get m (History.before_T iso)); eauto.
    + injection H as H. now destruct (Hget _ _ H).
    + injection H as H. now destruct (Hget _ _ H).
  - intros e He. unfold History.hasDataForDate, History.getDateSummary.
    rewrite He. split; reflexivity.
Qed.

Example before_T_of_an_instant : History.before_T "2025-07-28T21:32:41.000Z" = "2025-07-28".
Proof. reflexivity. Qed.

(** ** Every row is counted once *)
Section HistoryCounts.
Import History.

Lemma Map_update_count meal (m : SummaryMap) (k : string) :
  Map_has m k = true ->
  sum_list_with mealCount (Map_update (add_meal meal) m k).*2
  = S (sum_list_with mealCount m.*2).
Proof.
  induction m as [|[k0 s0] m IH]; [discriminate|].
  cbn [Map_has Map_update]. destruct (bool_decide (k0 = k)).
  - intros _. simpl. lia.
  - intros H. cbn [orb] in H. rewrite !fmap_cons. cbn [snd sum_list_with].
    rewrite (IH H). lia.
Qed.

Lemma group_meal_count (m : SummaryMap) (meal : MealRow) :
  sum_list_with mealCount (group_meal m meal).*2 = S (sum_list_with mealCount m.*2).
Proof.
  unfold group_meal. cbv zeta.
  destruct (Map_has m (logged_date meal)) eqn:Eh; cbn [negb].
  - now apply Map_update_count.
  - rewrite Map_update_count.
    + unfold Map_set_new. rewrite fmap_app, sum_list_with_app. simpl. lia.
    + rewrite Map_has_get, Map_get_set_new.
      apply bool_decide_eq_true.
      destruct (Map_get m (logged_date meal)); [eauto|].
      rewrite bool_decide_eq_true_2 by reflexivity. eauto.
Qed.

End HistoryCounts.

(** X16. The meal counts of the day summaries add up to the number of rows:
    grouping counts every row once. *)
Theorem daySummaries_count_every_row (meals : list History.MealRow) :
  sum_list_with History.mealCount (History.daySummaries (Some meals)) = length meals.
Proof.
  unfold History.daySummaries. simpl.
  induction meals as [|meal meals IH] using rev_ind; [reflexivity|].
  rewrite foldl_app, length_app. simpl. rewrite group_meal_count, IH. lia.
Qed.
